(** * Routine builder page script: a shallow embedding of [script.js]

    The development follows the script function by function.  Strings are
    Rocq strings holding the text of the JavaScript strings (UTF-8).  Case
    mapping and whitespace trimming are the ECMAScript ones on text in the
    ASCII range; beyond it they depend on the Unicode tables of the engine,
    so the statements that compare trimmed or lower-cased text are made for
    ASCII text ([ascii_text]).  The cards of the product grid are what the
    HTML parser builds from the markup of [displayProducts] when the
    interpolated texts hold no markup character ([plain_product]).  Numbers
    that occur as product identifiers or in JSON text are the integers.  [null] and [undefined] of an optional field are [None].
    A JavaScript exception is the [Throw] completion; [try]/[catch] is
    [try_catch].  The DOM is the record of the parts of the page the script
    reads and writes. *)

From Stdlib Require Import String Ascii List ZArith NArith Lia Bool Arith.
From Stdlib Require Import DecimalString Permutation Sorted.
Import ListNotations.
Open Scope string_scope.
Set Warnings "-register-all".

(* ================================================================== *)
(** * Part I. Definitions *)
(* ================================================================== *)

(** ** JavaScript primitives used by the script *)

Definition LF : string := String (ascii_of_nat 10) EmptyString.

(** WhiteSpace and LineTerminator code points below U+0080:
    TAB, LF, VT, FF, CR and SPACE. *)
Definition is_js_space (c : ascii) : bool :=
  let n := nat_of_ascii c in
  ((9 <=? n)%nat && (n <=? 13)%nat) || (n =? 32)%nat.

(** [String.prototype.trim], for text in the ASCII range: the white space
    it strips there is exactly that of [is_js_space].  (Beyond U+007F the
    function also strips U+00A0, U+FEFF and the space separators of the
    engine's Unicode version.) *)
Fixpoint trimStart (s : string) : string :=
  match s with
  | EmptyString => EmptyString
  | String c r => if is_js_space c then trimStart r else s
  end.

Fixpoint trimEnd (s : string) : string :=
  match s with
  | EmptyString => EmptyString
  | String c r =>
      match trimEnd r with
      | EmptyString => if is_js_space c then EmptyString else String c EmptyString
      | r' => String c r'
      end
  end.

Definition trim (s : string) : string := trimEnd (trimStart s).

(** [String.prototype.toLowerCase], for text in the ASCII range: the
    characters it maps there are the letters A to Z.  (Beyond U+007F it
    follows the case mappings of the engine's Unicode version.) *)
Definition lower_char (c : ascii) : ascii :=
  let n := nat_of_ascii c in
  if (65 <=? n)%nat && (n <=? 90)%nat then ascii_of_nat (n + 32) else c.

Fixpoint toLowerCase (s : string) : string :=
  match s with
  | EmptyString => EmptyString
  | String c r => String (lower_char c) (toLowerCase r)
  end.

(** Text in the ASCII range: every character is below U+0080.  This is
    the text on which [trim] and [toLowerCase] are the functions of the
    engine. *)
Definition is_ascii (c : ascii) : bool := (nat_of_ascii c <? 128)%nat.

Fixpoint ascii_text (s : string) : bool :=
  match s with
  | EmptyString => true
  | String c r => is_ascii c && ascii_text r
  end.

(** An optional text field that, when present, is ASCII text. *)
Definition ascii_field (x : option string) : bool :=
  match x with
  | Some s => ascii_text s
  | None => true
  end.

(** [String.prototype.includes]. *)
Fixpoint includes (hay needle : string) : bool :=
  prefix needle hay ||
  match hay with
  | EmptyString => false
  | String _ r => includes r needle
  end.

(** [Array.prototype.join] on an array of strings. *)
Fixpoint join (sep : string) (l : list string) : string :=
  match l with
  | [] => ""
  | [x] => x
  | x :: r => x ++ sep ++ join sep r
  end.

(** Number-to-string conversion of template literals and [String(n)]. *)
Definition string_of_nat (n : nat) : string :=
  NilZero.string_of_uint (Nat.to_uint n).

Definition string_of_Z (z : Z) : string :=
  NilZero.string_of_int (Z.to_int z).

(** Truthiness of a string value: [""] is the only falsy string. *)
Definition truthy (s : string) : bool := negb (s =? "").

(** [x || d] for an optional string field [x]. *)
Definition or_default (x : option string) (d : string) : string :=
  match x with
  | Some s => if truthy s then s else d
  | None => d
  end.

Definition inb (x : string) (l : list string) : bool :=
  existsb (String.eqb x) l.

(** Completions: a JavaScript call returns or throws. *)
Record JsError : Type := mkError { err_name : string; err_message : string }.

Inductive Completion (A : Type) : Type :=
| Normal (a : A)
| Throw (e : JsError).
Arguments Normal {A} a.
Arguments Throw {A} e.

Definition bind {A B} (c : Completion A) (k : A -> Completion B) : Completion B :=
  match c with
  | Normal a => k a
  | Throw e => Throw e
  end.

Notation "x <- c ;; k" := (bind c (fun x => k))
  (at level 61, c at next level, right associativity).

Definition try_catch {A} (c : Completion A) (h : JsError -> Completion A)
  : Completion A :=
  match c with
  | Normal a => Normal a
  | Throw e => h e
  end.

Definition TypeError (msg : string) : JsError := mkError "TypeError" msg.

(** ** Data model *)

(** A catalog identifier is a string or a number. *)
Inductive JsId : Type :=
| IdNum (n : Z)
| IdStr (s : string).

(** [String(v)] on an identifier. *)
Definition String_of_id (v : JsId) : string :=
  match v with
  | IdNum n => string_of_Z n
  | IdStr s => s
  end.

(** Strict equality [===] on identifiers: no coercion between types. *)
Definition strict_eq (a b : JsId) : bool :=
  match a, b with
  | IdNum x, IdNum y => Z.eqb x y
  | IdStr x, IdStr y => String.eqb x y
  | _, _ => false
  end.

(** A record of [products.json]. *)
Record Product : Type := mkProduct {
  id : option JsId;
  name : string;
  brand : option string;
  category : option string;
  description : option string;
  image : option string
}.

(** [product.id ?? product.name] *)
Definition product_pid (p : Product) : JsId :=
  match id p with
  | Some i => i
  | None => IdStr (name p)
  end.


(** The object pushed by [getSelectedProductsData]. *)
Record SelectedData : Type := mkSelected {
  sd_id : option JsId;
  sd_name : string;
  sd_brand : option string;
  sd_category : option string;
  sd_description : string
}.

(** The category of a selected product is ASCII text. *)
Definition ascii_category (p : SelectedData) : bool :=
  ascii_field (sd_category p).

(** ** [buildLocalRoutine] *)

Definition order : list string :=
  [ "cleanser"; "exfoliant"; "toner"; "essence"; "serum"; "eye";
    "moisturizer"; "oil"; "sunscreen" ].

Record Step : Type := mkStep {
  step_cat : string;
  step_name : string;
  step_reason : string
}.

(** [const buckets = {}]: the own properties in creation order.  A key that
    is not an own property is looked up on [Object.prototype]. *)
Definition Buckets : Type := list (string * list SelectedData).

(** The properties of [Object.prototype], each with the value of its
    [length] property ([None] for [undefined]). *)
Definition objectPrototype : list (string * option nat) :=
  [ ("constructor", Some 1);
    ("__defineGetter__", Some 2);
    ("__defineSetter__", Some 2);
    ("hasOwnProperty", Some 1);
    ("__lookupGetter__", Some 1);
    ("__lookupSetter__", Some 1);
    ("isPrototypeOf", Some 1);
    ("propertyIsEnumerable", Some 1);
    ("toString", Some 0);
    ("valueOf", Some 0);
    ("__proto__", None);
    ("toLocaleString", Some 0) ].

Fixpoint assoc {A} (k : string) (l : list (string * A)) : option A :=
  match l with
  | [] => None
  | (k', v) :: r => if k =? k' then Some v else assoc k r
  end.

Definition inherited (k : string) : bool :=
  match assoc k objectPrototype with Some _ => true | None => false end.

(** The value of [buckets[cat]]. *)
Inductive BucketValue : Type :=
| Own (l : list SelectedData)
| Inherited (len : option nat)
| Undefined.

Definition bucket_get (b : Buckets) (cat : string) : BucketValue :=
  match assoc cat b with
  | Some l => Own l
  | None =>
      match assoc cat objectPrototype with
      | Some len => Inherited len
      | None => Undefined
      end
  end.

(** [buckets[cat] = v] for a key that is an own property or is new. *)
Fixpoint bucket_set (b : Buckets) (cat : string) (v : list SelectedData)
  : Buckets :=
  match b with
  | [] => [(cat, v)]
  | (k, l) :: r =>
      if cat =? k then (k, v) :: r else (k, l) :: bucket_set r cat v
  end.

(** [delete buckets[cat]] *)
Definition bucket_delete (b : Buckets) (cat : string) : Buckets :=
  filter (fun kv => negb (cat =? fst kv)) b.

(** [String(p.category || "other").trim().toLowerCase()] *)
Definition normCategory (p : SelectedData) : string :=
  toLowerCase (trim (or_default (sd_category p) "other")).

(** One turn of the grouping loop:
    [if (!buckets[cat]) buckets[cat] = []; buckets[cat].push(p);] *)
Definition bucket_push (b : Buckets) (p : SelectedData) : Completion Buckets :=
  let cat := normCategory p in
  let b1 := match bucket_get b cat with
            | Undefined => bucket_set b cat []
            | _ => b
            end in
  match bucket_get b1 cat with
  | Own l => Normal (bucket_set b1 cat (l ++ [p]))
  | _ => Throw (TypeError "buckets[cat].push is not a function")
  end.

Fixpoint fill_buckets (ps : list SelectedData) (b : Buckets)
  : Completion Buckets :=
  match ps with
  | [] => Normal b
  | p :: r => b' <- bucket_push b p ;; fill_buckets r b'
  end.

Definition step_as (cat : string) (prod : SelectedData) : Step :=
  mkStep cat (sd_name prod)
    ("Use " ++ sd_name prod ++ " (" ++ or_default (sd_brand prod) "brand"
       ++ ") as a " ++ cat ++ ".").

Definition step_in (cat : string) (prod : SelectedData) : Step :=
  mkStep cat (sd_name prod)
    ("Use " ++ sd_name prod ++ " (" ++ or_default (sd_brand prod) "brand"
       ++ ") in the " ++ cat ++ " step.").

(** [for (const cat of order) { ... delete buckets[cat]; }] *)
Fixpoint ordered_steps (cats : list string) (b : Buckets) (steps : list Step)
  : Completion (list Step * Buckets) :=
  match cats with
  | [] => Normal (steps, b)
  | cat :: r =>
      match bucket_get b cat with
      | Own [] => ordered_steps r b steps
      | Own l =>
          ordered_steps r (bucket_delete b cat) (steps ++ map (step_as cat) l)
      | Undefined => ordered_steps r b steps
      | Inherited None | Inherited (Some 0) => ordered_steps r b steps
      | Inherited (Some (S _)) => Throw (TypeError "list is not iterable")
      end
  end.

(** Array indices: the canonical numeric strings of 0 .. 2^32 - 2. *)
Definition is_digit (c : ascii) : bool :=
  let n := nat_of_ascii c in (48 <=? n)%nat && (n <=? 57)%nat.

Fixpoint digits_value (s : string) (acc : N) : option N :=
  match s with
  | EmptyString => Some acc
  | String c r =>
      if is_digit c
      then digits_value r (10 * acc + N.of_nat (nat_of_ascii c - 48))%N
      else None
  end.

Definition arrayIndex (s : string) : option N :=
  match s with
  | EmptyString => None
  | String c r =>
      if (nat_of_ascii c =? 48)%nat && negb (r =? "") then None
      else match digits_value s 0%N with
           | Some n => if (n <? 4294967295)%N then Some n else None
           | None => None
           end
  end.

Fixpoint insert_index (x : N * string) (l : list (N * string))
  : list (N * string) :=
  match l with
  | [] => [x]
  | y :: r => if (fst x <=? fst y)%N then x :: l else y :: insert_index x r
  end.

Fixpoint sort_index (l : list (N * string)) : list (N * string) :=
  match l with
  | [] => []
  | x :: r => insert_index x (sort_index r)
  end.


Fixpoint index_keys (ks : list string) : list (N * string) :=
  match ks with
  | [] => []
  | k :: r =>
      match arrayIndex k with
      | Some n => (n, k) :: index_keys r
      | None => index_keys r
      end
  end.

Definition is_index (k : string) : bool :=
  match arrayIndex k with Some _ => true | None => false end.

(** The order of own property keys: array indices in ascending numeric
    order, then the other string keys in creation order. *)
Definition key_order (ks : list string) : list string :=
  map snd (sort_index (index_keys ks)) ++ filter (fun k => negb (is_index k)) ks.

Definition Object_keys (b : Buckets) : list string := key_order (map fst b).

(** [for (const cat of Object.keys(buckets)) for (const prod of buckets[cat])] *)
Fixpoint remaining_steps (cats : list string) (b : Buckets) (steps : list Step)
  : Completion (list Step) :=
  match cats with
  | [] => Normal steps
  | cat :: r =>
      match bucket_get b cat with
      | Own l => remaining_steps r b (steps ++ map (step_in cat) l)
      | _ => Throw (TypeError "buckets[cat] is not iterable")
      end
  end.

Definition EM_DASH : string := "—".

(** [steps.forEach((s, i) => lines.push(`${i + 1}. ${s.name} — ${s.reason}`))] *)
Fixpoint numbered (i : nat) (steps : list Step) : list string :=
  match steps with
  | [] => []
  | s :: r =>
      (string_of_nat (i + 1) ++ ". " ++ step_name s ++ " " ++ EM_DASH ++ " "
         ++ step_reason s) :: numbered (S i) r
  end.

Definition NO_PRODUCTS : string := "No products selected to build a routine.".
Definition HEADER : string := "Recommended routine based on selected products:".
Definition PRECAUTION : string :=
  "Short precautions: Patch test new products and avoid mixing strong actives.".

Definition formatRoutine (steps : list Step) : string :=
  match steps with
  | [] => NO_PRODUCTS
  | _ => join LF ([HEADER; ""] ++ numbered 0 steps ++ [""; PRECAUTION])
  end.

Definition buildLocalRoutine (products : list SelectedData)
  : Completion string :=
  buckets <- fill_buckets products [] ;;
  sb <- ordered_steps order buckets [] ;;
  steps <- remaining_steps (Object_keys (snd sb)) (snd sb) (fst sb) ;;
  Normal (formatRoutine steps).

(** The array [steps] of [buildLocalRoutine] when its three loops have
    run, before the text is formatted. *)
Definition steps_array (products : list SelectedData)
  : Completion (list Step) :=
  buckets <- fill_buckets products [] ;;
  sb <- ordered_steps order buckets [] ;;
  remaining_steps (Object_keys (snd sb)) (snd sb) (fst sb).

(** ** The routine order, as the specification words it

    These definitions follow the description of the local routine, not the
    code: the products of a category are those whose normalized category is
    that category, in selection order; the categories are taken in priority
    order first and then, for the ones outside the priority list, in the
    order in which they are first met. *)

(** The distinct elements of a list, each at its first occurrence. *)
Fixpoint firsts (l : list string) : list string :=
  match l with
  | [] => []
  | c :: r => c :: filter (fun d => negb (d =? c)) (firsts r)
  end.

Definition bucket_of (cat : string) (products : list SelectedData)
  : list SelectedData :=
  filter (fun p => normCategory p =? cat) products.

Definition priority_part (products : list SelectedData) : list Step :=
  flat_map (fun cat => map (step_as cat) (bucket_of cat products)) order.

Definition other_categories (products : list SelectedData) : list string :=
  filter (fun c => negb (inb c order)) (firsts (map normCategory products)).

Definition remaining_part (cats : list string) (products : list SelectedData)
  : list Step :=
  flat_map (fun cat => map (step_in cat) (bucket_of cat products)) cats.


(** The steps with the remaining categories in own-property-key order. *)
Definition routine_steps (products : list SelectedData) : list Step :=
  priority_part products
    ++ remaining_part (key_order (other_categories products)) products.

(** An object with the keys [K], created in that order, and values [f]. *)
Definition tabulate {A} (f : string -> A) (K : list string)
  : list (string * A) :=
  map (fun k => (k, f k)) K.

Definition buckets_of (products : list SelectedData) : Buckets :=
  tabulate (fun c => bucket_of c products) (firsts (map normCategory products)).

(** ** The selection set

    [selectedProductIds] is a [Set]; the script only ever adds strings to it
    (a [dataset] value or the result of [String(id)]), and a [Set] iterates
    in insertion order. *)

Definition SelSet : Type := list string.

(** [Set.prototype.has]: SameValueZero, so a number is never found. *)
Definition Set_has (s : SelSet) (v : JsId) : bool :=
  match v with
  | IdStr x => inb x s
  | IdNum _ => false
  end.

Definition Set_add (s : SelSet) (x : string) : SelSet :=
  if inb x s then s else (s ++ [x])%list.

Definition Set_delete (s : SelSet) (x : string) : SelSet :=
  filter (fun y => negb (x =? y)) s.

(** ** [getSelectedProductsData] *)

(** [products.find((it) => String(it.id ?? it.name) === String(id))] *)
Definition find_selected (products : list Product) (i : string)
  : option Product :=
  find (fun it => String_of_id (product_pid it) =? i) products.

Definition selected_data (p : Product) : SelectedData :=
  mkSelected (id p) (name p) (brand p) (category p)
    (or_default (description p) "").

Fixpoint collect_selected (products : list Product) (ids : list string)
  (selected : list SelectedData) : list SelectedData :=
  match ids with
  | [] => selected
  | i :: r =>
      match find_selected products i with
      | None => collect_selected products r selected
      | Some p => collect_selected products r (selected ++ [selected_data p])
      end
  end.

Definition getSelectedProductsData (allProductsCache : option (list Product))
  (selectedProductIds : SelSet) : list SelectedData :=
  let products := match allProductsCache with Some ps => ps | None => [] end in
  collect_selected products selectedProductIds [].

(** ** JSON *)

Inductive JsonValue : Type :=
| JNull
| JBool (b : bool)
| JNum (z : Z)
| JStr (s : string)
| JArr (l : list JsonValue)
| JObj (m : list (string * JsonValue)).

Definition hex_digit (n : nat) : ascii :=
  ascii_of_nat (if (n <? 10)%nat then 48 + n else 87 + n).

(** QuoteJSONString, one character. *)
Definition quote_char (c : ascii) : string :=
  let n := nat_of_ascii c in
  if (n =? 8)%nat then "\b"
  else if (n =? 9)%nat then "\t"
  else if (n =? 10)%nat then "\n"
  else if (n =? 12)%nat then "\f"
  else if (n =? 13)%nat then "\r"
  else if (n =? 34)%nat then "\" ++ String c ""
  else if (n =? 92)%nat then "\\"
  else if (n <? 32)%nat then
    "\u00" ++ String (hex_digit (n / 16)) (String (hex_digit (n mod 16)) "")
  else String c "".

Fixpoint quote_body (s : string) : string :=
  match s with
  | EmptyString => EmptyString
  | String c r => quote_char c ++ quote_body r
  end.

Definition DQUOTE : string := String (ascii_of_nat 34) "".

Definition QuoteJSONString (s : string) : string :=
  DQUOTE ++ quote_body s ++ DQUOTE.

(** [JSON.stringify] applied to an array of strings. *)
Definition JSON_stringify (l : list string) : string :=
  "[" ++ join "," (map QuoteJSONString l) ++ "]".

(** The result of [JSON.parse]: [PUnsupported] marks JSON text outside the
    fragment the embedding evaluates (numbers with a fraction, an exponent
    or beyond the exactly representable integers, and escapes of code
    points above U+007F). *)
Inductive ParseResult (A : Type) : Type :=
| POk (a : A)
| PSyntaxError
| PUnsupported.
Arguments POk {A} a.
Arguments PSyntaxError {A}.
Arguments PUnsupported {A}.

Definition pbind {A B} (c : ParseResult A) (k : A -> ParseResult B)
  : ParseResult B :=
  match c with
  | POk a => k a
  | PSyntaxError => PSyntaxError
  | PUnsupported => PUnsupported
  end.

(** JSON whitespace: TAB, LF, CR and SPACE. *)
Definition is_json_ws (c : ascii) : bool :=
  let n := nat_of_ascii c in
  (n =? 9)%nat || (n =? 10)%nat || (n =? 13)%nat || (n =? 32)%nat.

Fixpoint skip_ws (s : string) : string :=
  match s with
  | EmptyString => EmptyString
  | String c r => if is_json_ws c then skip_ws r else s
  end.

Definition hex_value (c : ascii) : option nat :=
  let n := nat_of_ascii c in
  if (48 <=? n)%nat && (n <=? 57)%nat then Some (n - 48)
  else if (97 <=? n)%nat && (n <=? 102)%nat then Some (n - 87)
  else if (65 <=? n)%nat && (n <=? 70)%nat then Some (n - 55)
  else None.

Definition hex4 (a b c d : ascii) : option nat :=
  match hex_value a, hex_value b, hex_value c, hex_value d with
  | Some x, Some y, Some z, Some w => Some (((x * 16 + y) * 16 + z) * 16 + w)
  | _, _, _, _ => None
  end.

Definition pcons (c : ascii) (r : ParseResult (string * string))
  : ParseResult (string * string) :=
  pbind r (fun sr => POk (String c (fst sr), snd sr)).

(** The characters of a JSON string after its opening quote; returns the
    decoded string and the text after the closing quote. *)
Fixpoint parse_string_body (s : string) : ParseResult (string * string) :=
  match s with
  | EmptyString => PSyntaxError
  | String c r =>
      let n := nat_of_ascii c in
      if (n =? 34)%nat then POk (EmptyString, r)
      else if (n =? 92)%nat then
        match r with
        | EmptyString => PSyntaxError
        | String e r2 =>
            let m := nat_of_ascii e in
            if (m =? 34)%nat || (m =? 92)%nat || (m =? 47)%nat
            then pcons e (parse_string_body r2)
            else if (m =? 98)%nat then pcons (ascii_of_nat 8) (parse_string_body r2)
            else if (m =? 102)%nat then pcons (ascii_of_nat 12) (parse_string_body r2)
            else if (m =? 110)%nat then pcons (ascii_of_nat 10) (parse_string_body r2)
            else if (m =? 114)%nat then pcons (ascii_of_nat 13) (parse_string_body r2)
            else if (m =? 116)%nat then pcons (ascii_of_nat 9) (parse_string_body r2)
            else if (m =? 117)%nat then
              match r2 with
              | String h1 (String h2 (String h3 (String h4 r3))) =>
                  match hex4 h1 h2 h3 h4 with
                  | Some v =>
                      if (v <? 128)%nat
                      then pcons (ascii_of_nat v) (parse_string_body r3)
                      else PUnsupported
                  | None => PSyntaxError
                  end
              | _ => PSyntaxError
              end
            else PSyntaxError
        end
      else if (n <? 32)%nat then PSyntaxError
      else pcons c (parse_string_body r)
  end.

Fixpoint take_digits (s : string) (acc : Z) : Z * string :=
  match s with
  | EmptyString => (acc, s)
  | String c r =>
      if is_digit c
      then take_digits r (10 * acc + Z.of_nat (nat_of_ascii c - 48))%Z
      else (acc, s)
  end.

Definition MAX_SAFE_INTEGER : Z := 9007199254740991.

(** The digits of a JSON number after its optional sign. *)
Definition parse_digits (neg : bool) (s : string)
  : ParseResult (JsonValue * string) :=
  match s with
  | EmptyString => PSyntaxError
  | String c r =>
      if negb (is_digit c) then PSyntaxError
      else
        let zr := if (nat_of_ascii c =? 48)%nat then (0%Z, r)
                  else take_digits s 0%Z in
        match snd zr with
        | String d _ =>
            let k := nat_of_ascii d in
            if (k =? 46)%nat || (k =? 101)%nat || (k =? 69)%nat
            then PUnsupported
            else if (fst zr <=? MAX_SAFE_INTEGER)%Z
                 then POk (JNum (if neg then (- fst zr)%Z else fst zr), snd zr)
                 else PUnsupported
        | EmptyString =>
            if (fst zr <=? MAX_SAFE_INTEGER)%Z
            then POk (JNum (if neg then (- fst zr)%Z else fst zr), snd zr)
            else PUnsupported
        end
  end.

Definition expect (word : string) (v : JsonValue) (s : string)
  : ParseResult (JsonValue * string) :=
  if prefix word s
  then POk (v, substring (String.length word) (String.length s - String.length word) s)
  else PSyntaxError.

(** Recursive descent over the JSON grammar.  [fuel] bounds the number of
    nested calls, and a call that is out of fuel answers [PUnsupported];
    [JSON_parse] supplies twice the length of the text and two. *)
Fixpoint parse_value (fuel : nat) (s : string)
  : ParseResult (JsonValue * string) :=
  match fuel with
  | O => PUnsupported
  | S f =>
      match skip_ws s with
      | EmptyString => PSyntaxError
      | String c r =>
          let n := nat_of_ascii c in
          if (n =? 34)%nat then
            pbind (parse_string_body r) (fun sr => POk (JStr (fst sr), snd sr))
          else if (n =? 91)%nat then
            match skip_ws r with
            | String c2 r2 =>
                if (nat_of_ascii c2 =? 93)%nat then POk (JArr [], r2)
                else parse_elements f r []
            | EmptyString => PSyntaxError
            end
          else if (n =? 123)%nat then
            match skip_ws r with
            | String c2 r2 =>
                if (nat_of_ascii c2 =? 125)%nat then POk (JObj [], r2)
                else parse_members f r []
            | EmptyString => PSyntaxError
            end
          else if (n =? 110)%nat then expect "null" JNull (String c r)
          else if (n =? 116)%nat then expect "true" (JBool true) (String c r)
          else if (n =? 102)%nat then expect "false" (JBool false) (String c r)
          else if (n =? 45)%nat then parse_digits true r
          else parse_digits false (String c r)
      end
  end
with parse_elements (fuel : nat) (s : string) (acc : list JsonValue)
  : ParseResult (JsonValue * string) :=
  match fuel with
  | O => PUnsupported
  | S f =>
      pbind (parse_value f s) (fun vr =>
        match skip_ws (snd vr) with
        | String c r =>
            if (nat_of_ascii c =? 44)%nat
            then parse_elements f r (acc ++ [fst vr])
            else if (nat_of_ascii c =? 93)%nat
                 then POk (JArr (acc ++ [fst vr]), r)
                 else PSyntaxError
        | EmptyString => PSyntaxError
        end)
  end
with parse_members (fuel : nat) (s : string) (acc : list (string * JsonValue))
  : ParseResult (JsonValue * string) :=
  match fuel with
  | O => PUnsupported
  | S f =>
      match skip_ws s with
      | String q r =>
          if negb (nat_of_ascii q =? 34)%nat then PSyntaxError
          else
            pbind (parse_string_body r) (fun kr =>
              match skip_ws (snd kr) with
              | String c r1 =>
                  if negb (nat_of_ascii c =? 58)%nat then PSyntaxError
                  else
                    pbind (parse_value f r1) (fun vr =>
                      match skip_ws (snd vr) with
                      | String d r2 =>
                          if (nat_of_ascii d =? 44)%nat
                          then parse_members f r2 (acc ++ [(fst kr, fst vr)])
                          else if (nat_of_ascii d =? 125)%nat
                               then POk (JObj (acc ++ [(fst kr, fst vr)]), r2)
                               else PSyntaxError
                      | EmptyString => PSyntaxError
                      end)
              | EmptyString => PSyntaxError
              end)
      | EmptyString => PSyntaxError
      end
  end.

Definition JSON_parse (text : string) : ParseResult JsonValue :=
  pbind (parse_value (2 * String.length text + 2) text) (fun vr =>
    match skip_ws (snd vr) with
    | EmptyString => POk (fst vr)
    | _ => PSyntaxError
    end).

(** [String(v)] on a parsed JSON value.  An object whose own property
    [toString] shadows the inherited method cannot be converted. *)
Fixpoint js_ToString (v : JsonValue) : Completion string :=
  match v with
  | JNull => Normal "null"
  | JBool true => Normal "true"
  | JBool false => Normal "false"
  | JNum z => Normal (string_of_Z z)
  | JStr s => Normal s
  | JArr l =>
      ss <- (fix elems (l : list JsonValue) : Completion (list string) :=
               match l with
               | [] => Normal []
               | x :: r =>
                   s <- match x with
                        | JNull => Normal ""
                        | _ => js_ToString x
                        end ;;
                   rs <- elems r ;;
                   Normal (s :: rs)
               end) l ;;
      Normal (join "," ss)
  | JObj m =>
      match assoc "toString" m with
      | Some _ => Throw (TypeError "Cannot convert object to primitive value")
      | None => Normal "[object Object]"
      end
  end.

(** ** Browser storage *)

Definition DOMException (n : string) : JsError := mkError n "The operation failed.".

(** [localStorage]: access throws when storage is disabled, and [setItem]
    throws when the value does not fit the quota. *)
Record LocalStorage : Type := mkStorage {
  ls_enabled : bool;
  ls_quota : nat;
  ls_items : list (string * string)
}.

Fixpoint assoc_set {A} (k : string) (v : A) (l : list (string * A))
  : list (string * A) :=
  match l with
  | [] => [(k, v)]
  | (k', v') :: r =>
      if k =? k' then (k', v) :: r else (k', v') :: assoc_set k v r
  end.

Definition getItem (st : LocalStorage) (k : string)
  : Completion (option string) :=
  if ls_enabled st then Normal (assoc k (ls_items st))
  else Throw (DOMException "SecurityError").

Definition setItem (st : LocalStorage) (k v : string)
  : Completion LocalStorage :=
  if negb (ls_enabled st) then Throw (DOMException "SecurityError")
  else if (String.length v <=? ls_quota st)%nat
       then Normal (mkStorage (ls_enabled st) (ls_quota st)
                      (assoc_set k v (ls_items st)))
       else Throw (DOMException "QuotaExceededError").

Definition STORAGE_KEY : string := "selectedProductIds".

(** [saveSelectedToStorage]: a failure is caught and logged. *)
Definition saveSelectedToStorage (selectedProductIds : SelSet)
  (st : LocalStorage) : LocalStorage :=
  match setItem st STORAGE_KEY (JSON_stringify selectedProductIds) with
  | Normal st' => st'
  | Throw _ => st
  end.

(** [for (const id of arr) selectedProductIds.add(String(id))]; a throwing
    conversion leaves the loop with the members added so far. *)
Fixpoint add_all (arr : list JsonValue) (s : SelSet) : SelSet :=
  match arr with
  | [] => s
  | v :: r =>
      match js_ToString v with
      | Normal x => add_all r (Set_add s x)
      | Throw _ => s
      end
  end.

(** [loadSelectedFromStorage]; [None] when the stored text is outside the
    evaluated JSON fragment. *)
Definition loadSelectedFromStorage (st : LocalStorage)
  (selectedProductIds : SelSet) : option SelSet :=
  match getItem st STORAGE_KEY with
  | Throw _ => Some selectedProductIds
  | Normal None => Some selectedProductIds
  | Normal (Some raw) =>
      if negb (truthy raw) then Some selectedProductIds
      else
        match JSON_parse raw with
        | POk (JArr arr) => Some (add_all arr selectedProductIds)
        | POk _ => Some selectedProductIds
        | PSyntaxError => Some selectedProductIds
        | PUnsupported => None
        end
  end.

(** ** The page *)

(** The category [<select>]: its value and the text of its selected
    option, if it has one. *)
Record SelectCtl : Type := mkSelect {
  ctl_value : string;
  ctl_optionText : option string
}.


(** A rendered product card; [card_elem] is the identity of the element. *)
Record Card : Type := mkCard {
  card_elem : nat;
  card_pid : string;
  card_selected : bool;
  card_highlighted : bool;
  card_product : Product
}.

(** What [productsContainer.innerHTML] holds. *)
Inductive View : Type :=
| ViewPlaceholder
| ViewNoMatches
| ViewCards (cards : list Card).

(** The variables closed over by [closeModal] and [escHandler] of one call
    of [showProductModal]. *)
Record Closure : Type := mkClosure {
  cl_overlay : nat;
  cl_card : nat
}.

(** An element with id [product-modal-overlay] attached to the body. *)
Record Overlay : Type := mkOverlay {
  ov_elem : nat;
  ov_product : Product;
  ov_close : option Closure
}.

(** The body of the request sent to the generation endpoint. *)
Record Request : Type := mkRequest {
  req_url : string;
  req_authorization : string;
  req_model : string;
  req_system : string;
  req_products : list SelectedData;
  req_max_tokens : nat;
  req_temperature : string
}.

Record Page : Type := mkPage {
  categoryFilter : option SelectCtl;
  searchInput : option string;
  productsContainer : option View;
  chatWindow : option string;
  selectedProductIds : SelSet;
  allProductsCache : option (list Product);
  localStorage : LocalStorage;
  overlays : list Overlay;
  keydown : list Closure;
  nextElem : nat;
  OPENAI_API_KEY : option string;
  requests : list Request
}.

Definition set_searchInput (v : option string) (p : Page) : Page :=
  mkPage (categoryFilter p) v (productsContainer p) (chatWindow p)
    (selectedProductIds p) (allProductsCache p) (localStorage p) (overlays p)
    (keydown p) (nextElem p) (OPENAI_API_KEY p) (requests p).

Definition set_productsContainer (v : option View) (p : Page) : Page :=
  mkPage (categoryFilter p) (searchInput p) v (chatWindow p)
    (selectedProductIds p) (allProductsCache p) (localStorage p) (overlays p)
    (keydown p) (nextElem p) (OPENAI_API_KEY p) (requests p).

Definition set_chatWindow (v : string) (p : Page) : Page :=
  mkPage (categoryFilter p) (searchInput p) (productsContainer p) (Some v)
    (selectedProductIds p) (allProductsCache p) (localStorage p) (overlays p)
    (keydown p) (nextElem p) (OPENAI_API_KEY p) (requests p).

Definition set_selectedProductIds (v : SelSet) (p : Page) : Page :=
  mkPage (categoryFilter p) (searchInput p) (productsContainer p)
    (chatWindow p) v (allProductsCache p) (localStorage p) (overlays p)
    (keydown p) (nextElem p) (OPENAI_API_KEY p) (requests p).

Definition set_allProductsCache (v : option (list Product)) (p : Page) : Page :=
  mkPage (categoryFilter p) (searchInput p) (productsContainer p)
    (chatWindow p) (selectedProductIds p) v (localStorage p) (overlays p)
    (keydown p) (nextElem p) (OPENAI_API_KEY p) (requests p).

Definition set_localStorage (v : LocalStorage) (p : Page) : Page :=
  mkPage (categoryFilter p) (searchInput p) (productsContainer p)
    (chatWindow p) (selectedProductIds p) (allProductsCache p) v (overlays p)
    (keydown p) (nextElem p) (OPENAI_API_KEY p) (requests p).

Definition set_overlays (v : list Overlay) (p : Page) : Page :=
  mkPage (categoryFilter p) (searchInput p) (productsContainer p)
    (chatWindow p) (selectedProductIds p) (allProductsCache p) (localStorage p)
    v (keydown p) (nextElem p) (OPENAI_API_KEY p) (requests p).

Definition set_keydown (v : list Closure) (p : Page) : Page :=
  mkPage (categoryFilter p) (searchInput p) (productsContainer p)
    (chatWindow p) (selectedProductIds p) (allProductsCache p) (localStorage p)
    (overlays p) v (nextElem p) (OPENAI_API_KEY p) (requests p).

Definition set_nextElem (v : nat) (p : Page) : Page :=
  mkPage (categoryFilter p) (searchInput p) (productsContainer p)
    (chatWindow p) (selectedProductIds p) (allProductsCache p) (localStorage p)
    (overlays p) (keydown p) v (OPENAI_API_KEY p) (requests p).

Definition add_request (r : Request) (p : Page) : Page :=
  mkPage (categoryFilter p) (searchInput p) (productsContainer p)
    (chatWindow p) (selectedProductIds p) (allProductsCache p) (localStorage p)
    (overlays p) (keydown p) (nextElem p) (OPENAI_API_KEY p)
    (requests p ++ [r]).

(** ** The network *)

(** What a [Response] of the generation endpoint gives: [res.ok],
    [res.status], [res.statusText], and the results of [res.text()] and
    [res.json()]. *)
Record Response : Type := mkResponse {
  res_ok : bool;
  res_status : nat;
  res_statusText : string;
  res_text : Completion string;
  res_json : Completion JsonValue
}.

(** The environment of the page: the result of fetching and decoding
    [products.json] ([Normal None] when the payload has no [products]
    field), and the result of a request to the generation endpoint, a
    rejected [fetch] being [Throw]. *)
Record Env : Type := mkEnv {
  fetchProducts : Completion (option (list Product));
  fetchRoutine : Request -> Completion Response
}.

(** ** [loadProducts] *)

Definition loadProducts (env : Env) (p : Page)
  : Completion (option (list Product) * Page) :=
  match allProductsCache p with
  | Some ps => Normal (Some ps, p)
  | None =>
      products <- fetchProducts env ;;
      Normal (products, set_allProductsCache products p)
  end.

(** ** [displayProducts] *)





(** The cards that the markup of [displayProducts] yields.  The template
    writes [pid] into the [data-product-id] attribute without escaping and
    the click handler reads [dataset.productId] back from the parsed
    element: for a product that is [plain_product] the value read back is
    [String(pid)] and the markup has one card per product, which is what
    the records below hold. *)
Fixpoint render_cards (sel : SelSet) (next : nat) (products : list Product)
  : list Card :=
  match products with
  | [] => []
  | product :: r =>
      let pid := product_pid product in
      mkCard next (String_of_id pid) (Set_has sel pid) false product
        :: render_cards sel (S next) r
  end.

Definition displayProducts (products : list Product) (p : Page)
  : Completion Page :=
  match productsContainer p with
  | None => Throw (TypeError "Cannot set properties of null")
  | Some _ =>
      Normal
        (set_nextElem (nextElem p + List.length products)
           (set_productsContainer
              (Some (ViewCards
                       (render_cards (selectedProductIds p) (nextElem p) products)))
              p))
  end.

(** ** Highlight and modal overlay *)

Definition set_highlight (h : bool) (c : Card) : Card :=
  mkCard (card_elem c) (card_pid c) (card_selected c) h (card_product c).

Definition set_selected (b : bool) (c : Card) : Card :=
  mkCard (card_elem c) (card_pid c) b (card_highlighted c) (card_product c).

(** Remove the class from the first highlighted card. *)
Fixpoint unhighlight_first (cs : list Card) : list Card :=
  match cs with
  | [] => []
  | c :: r =>
      if card_highlighted c then set_highlight false c :: r
      else c :: unhighlight_first r
  end.

Definition on_card (elem : nat) (f : Card -> Card) (v : option View)
  : option View :=
  match v with
  | Some (ViewCards cs) =>
      Some (ViewCards
              (map (fun c => if (card_elem c =? elem)%nat then f c else c) cs))
  | _ => v
  end.

Definition clearHighlights (p : Page) : Completion Page :=
  match productsContainer p with
  | None => Throw (TypeError "Cannot read properties of null")
  | Some (ViewCards cs) =>
      Normal (set_productsContainer (Some (ViewCards (unhighlight_first cs))) p)
  | Some _ => Normal p
  end.

(** [element.remove()] for an overlay element. *)
Definition remove_overlay (elem : nat) (os : list Overlay) : list Overlay :=
  filter (fun o => negb (ov_elem o =? elem)%nat) os.

(** The closure [closeModal] of one [showProductModal] call. *)
Definition closeModal (cl : Closure) (p : Page) : Page :=
  set_keydown
    (filter (fun k => negb (cl_overlay k =? cl_overlay cl)%nat) (keydown p))
    (set_productsContainer
       (on_card (cl_card cl) (set_highlight false) (productsContainer p))
       (set_overlays (remove_overlay (cl_overlay cl) (overlays p)) p)).

Definition closeExistingModal (p : Page) : Page :=
  match overlays p with
  | [] => p
  | existing :: _ =>
      match ov_close existing with
      | Some cl => closeModal cl p
      | None => set_overlays (remove_overlay (ov_elem existing) (overlays p)) p
      end
  end.

Definition showProductModal (product : Product) (card : nat) (p : Page)
  : Completion Page :=
  p1 <- clearHighlights p ;;
  let p2 := set_productsContainer
              (on_card card (set_highlight true) (productsContainer p1)) p1 in
  let p3 := match overlays p2 with
            | [] => p2
            | existing :: _ =>
                set_overlays (remove_overlay (ov_elem existing) (overlays p2)) p2
            end in
  let elem := nextElem p3 in
  let cl := mkClosure elem card in
  Normal
    (set_keydown (keydown p3 ++ [cl])
       (set_overlays (overlays p3 ++ [mkOverlay elem product (Some cl)])
          (set_nextElem (S elem) p3))).

(** A [keydown] event with key [Escape]: every registered handler runs. *)
Definition pressEscape (p : Page) : Page :=
  fold_left (fun q cl => closeModal cl q) (keydown p) p.

(** A click on the close button of, or on, the overlay element [elem]. *)
Definition clickClose (elem : nat) (p : Page) : Page :=
  match find (fun o => (ov_elem o =? elem)%nat) (overlays p) with
  | Some o =>
      match ov_close o with
      | Some cl => closeModal cl p
      | None => p
      end
  | None => p
  end.

(** ** [applyFilters] *)

(** [\w] *)
Definition is_word_char (c : ascii) : bool :=
  let n := nat_of_ascii c in
  ((48 <=? n)%nat && (n <=? 57)%nat) || ((65 <=? n)%nat && (n <=? 90)%nat)
  || ((97 <=? n)%nat && (n <=? 122)%nat) || (n =? 95)%nat.

Fixpoint skip_word (s : string) : string :=
  match s with
  | EmptyString => EmptyString
  | String c r => if is_word_char c then skip_word r else s
  end.

(** [/^#|:/.test(s)] *)
Definition looks_templated (s : string) : bool :=
  prefix "#" s || includes s ":".

(** [s.replace(/^#\w+:/, "")] *)
Definition strip_template_prefix (s : string) : string :=
  match s with
  | String c (String w r) =>
      if (nat_of_ascii c =? 35)%nat && is_word_char w then
        match skip_word r with
        | String d rest => if (nat_of_ascii d =? 58)%nat then rest else s
        | EmptyString => s
        end
      else s
  | _ => s
  end.

(** The category term [applyFilters] works with. *)
Definition selected_category (cf : option SelectCtl) : string :=
  match cf with
  | None => ""
  | Some ctl =>
      let selectedCategory := ctl_value ctl in
      if truthy selectedCategory && looks_templated selectedCategory then
        match ctl_optionText ctl with
        | Some text =>
            if truthy (trim text) then trim text
            else trim (strip_template_prefix selectedCategory)
        | None => trim (strip_template_prefix selectedCategory)
        end
      else selectedCategory
  end.

(** [String(p.category || "").trim().toLowerCase()] *)
Definition product_category_key (p : Product) : string :=
  toLowerCase (trim (or_default (category p) "")).

(** [if (selectedCategory) filtered = filtered.filter(...)] *)
Definition category_filter (selectedCategory : string)
  (filtered : list Product) : list Product :=
  if truthy selectedCategory then
    filter (fun p =>
              product_category_key p =? toLowerCase (trim selectedCategory))
      filtered
  else filtered.

(** The query [q] read from the search input. *)
Definition search_query (si : option string) : string :=
  match si with
  | Some v => toLowerCase (trim v)
  | None => ""
  end.

Definition search_fields (p : Product) : string :=
  toLowerCase
    (join " " [ name p; or_default (brand p) ""; or_default (description p) "";
                or_default (category p) "" ]).

(** [if (q) filtered = filtered.filter(...)] *)
Definition search_filter (q : string) (filtered : list Product)
  : list Product :=
  if truthy q then filter (fun p => includes (search_fields p) q) filtered
  else filtered.

Definition null_slice : JsError :=
  TypeError "Cannot read properties of undefined (reading 'slice')".

Definition applyFilters (env : Env) (p : Page) : Completion Page :=
  let p1 := closeExistingModal p in
  p2 <- clearHighlights p1 ;;
  lp <- loadProducts env p2 ;;
  match fst lp with
  | None => Throw null_slice
  | Some products =>
      let p3 := snd lp in
      let selectedCategory := selected_category (categoryFilter p3) in
      let q := search_query (searchInput p3) in
      let filtered :=
        search_filter q (category_filter selectedCategory products) in
      match productsContainer p3 with
      | None => Normal p3
      | Some _ =>
          if negb (truthy selectedCategory) && negb (truthy q)
          then Normal (set_productsContainer (Some ViewPlaceholder) p3)
          else
            match filtered with
            | [] => Normal (set_productsContainer (Some ViewNoMatches) p3)
            | _ => displayProducts filtered p3
            end
      end
  end.

(** ** The document click handler, for a click on a product card *)

Definition find_card (elem : nat) (v : option View) : option Card :=
  match v with
  | Some (ViewCards cs) => find (fun c => (card_elem c =? elem)%nat) cs
  | _ => None
  end.

(** [if (selectedProductIds.has(pid)) { delete } else { add }] *)
Definition toggle (pid : string) (s : SelSet) : SelSet :=
  if Set_has s (IdStr pid) then Set_delete s pid else Set_add s pid.

(** [products.find((p) => (p.id ?? p.name) === pid)] *)
Definition find_clicked (products : list Product) (pid : string)
  : option Product :=
  find (fun p => strict_eq (product_pid p) (IdStr pid)) products.

Definition cardClick (env : Env) (card : nat) (p : Page) : Completion Page :=
  match find_card card (productsContainer p) with
  | None => Normal p
  | Some c =>
      let pid := card_pid c in
      if negb (truthy pid) then Normal p
      else
        let was := Set_has (selectedProductIds p) (IdStr pid) in
        let p1 := set_productsContainer
                    (on_card card (set_selected (negb was)) (productsContainer p))
                    (set_selectedProductIds (toggle pid (selectedProductIds p)) p) in
        let p2 := set_localStorage
                    (saveSelectedToStorage (selectedProductIds p1) (localStorage p1))
                    p1 in
        lp <- loadProducts env p2 ;;
        match fst lp with
        | None =>
            Throw (TypeError "Cannot read properties of undefined (reading 'find')")
        | Some products =>
            match find_clicked products pid with
            | Some product => showProductModal product card (snd lp)
            | None => Normal (snd lp)
            end
        end
  end.

(** ** [init] *)

(** The synchronous part of [init]: restore the selection, make sure a
    search input exists and show the placeholder. *)
Definition init_sync (p : Page) : option Page :=
  match loadSelectedFromStorage (localStorage p) (selectedProductIds p) with
  | None => None
  | Some s =>
      let p1 := set_selectedProductIds s p in
      let p2 := match searchInput p1 with
                | None => set_searchInput (Some "") p1
                | Some _ => p1
                end in
      Some (match productsContainer p2 with
            | None => p2
            | Some _ => set_productsContainer (Some ViewPlaceholder) p2
            end)
  end.

(** The initial-load function at the end of [init]. *)
Definition initialLoad (env : Env) (p : Page) : Completion Page :=
  lp <- loadProducts env p ;;
  match fst lp with
  | None => Throw null_slice
  | Some products =>
      let defaultCategory :=
        match categoryFilter (snd lp) with
        | Some ctl => ctl_value ctl
        | None => ""
        end in
      let filtered :=
        if truthy defaultCategory
        then filter (fun p => match category p with
                              | Some c => c =? defaultCategory
                              | None => false
                              end) products
        else products in
      displayProducts filtered (snd lp)
  end.

Definition init (env : Env) (p : Page) : option (Completion Page) :=
  match init_sync p with
  | None => None
  | Some p1 => Some (initialLoad env p1)
  end.

(** ** [generateRoutine] *)

Definition ENDPOINT : string := "https://spring-shape-150c.adebiyav.workers.dev/".

Definition systemMsg : string :=
  "You are a helpful skincare and product routine assistant. Given a list of selected products, generate a clear, step-by-step routine (order of use, brief reasoning) and any short precautions. Keep the response concise and user-friendly.".

Definition SELECT_ONE : string :=
  "<div>Please select at least one product before generating a routine.</div>".

Definition GENERATING : string := "<div>Generating routine…</div>".

Definition NO_RESPONSE : string := "<div>No response from the API.</div>".

Definition PRE_WRAP_OPEN : string :=
  "<div style=" ++ DQUOTE ++ "white-space:pre-wrap" ++ DQUOTE ++ ">".

Definition pre_wrap (text : string) : string :=
  PRE_WRAP_OPEN ++ text ++ "</div>".

Definition api_error (status : nat) (statusText text : string) : string :=
  "<div>API error: " ++ string_of_nat status ++ " " ++ statusText
    ++ "<pre style=" ++ DQUOTE ++ "white-space:pre-wrap" ++ DQUOTE ++ ">"
    ++ text ++ "</pre></div>".

Definition request_failed (err : JsError) : string :=
  "<div>Request failed: " ++ err_message err ++ "</div>".

(** A value that may be [undefined]. *)
Definition JsValue : Type := option JsonValue.

Fixpoint assoc_last {A} (k : string) (l : list (string * A)) : option A :=
  match l with
  | [] => None
  | (k', v) :: r =>
      match assoc_last k r with
      | Some w => Some w
      | None => if k =? k' then Some v else None
      end
  end.

(** [v?.k] for a property name [k] that no prototype defines. *)
Definition get_prop (v : JsValue) (k : string) : JsValue :=
  match v with
  | Some (JObj m) => assoc_last k m
  | _ => None
  end.

(** [v?.[0]] *)
Definition get_first (v : JsValue) : JsValue :=
  match v with
  | Some (JArr (x :: _)) => Some x
  | Some (JStr (String c _)) => Some (JStr (String c EmptyString))
  | Some (JObj m) => assoc_last "0" m
  | _ => None
  end.

(** [a ?? b] *)
Definition nullish (a b : JsValue) : JsValue :=
  match a with
  | None | Some JNull => b
  | _ => a
  end.

(** [!v] *)
Definition falsy (v : JsValue) : bool :=
  match v with
  | None | Some JNull | Some (JBool false) | Some (JNum 0%Z) => true
  | Some (JStr s) => negb (truthy s)
  | _ => false
  end.

(** [data?.choices?.[0]?.message?.content ?? data?.choices?.[0]?.text ?? null] *)
Definition extract_text (data : JsonValue) : JsValue :=
  let first := get_first (get_prop (Some data) "choices") in
  nullish (nullish (get_prop (get_prop first "message") "content")
             (get_prop first "text"))
    (Some JNull).

Definition routine_request (apiKey : string) (selected : list SelectedData)
  : Request :=
  mkRequest ENDPOINT ("Bearer " ++ apiKey) "gpt-4o" systemMsg selected 800 "0.7".

(** The body of the [try] block, after the request has been sent. *)
Definition handle_response (r : Completion Response) (p : Page)
  : Completion Page :=
  res <- r ;;
  if negb (res_ok res) then
    text <- res_text res ;;
    Normal (set_chatWindow
              (api_error (res_status res) (res_statusText res) text) p)
  else
    data <- res_json res ;;
    let aiText := extract_text data in
    if falsy aiText then Normal (set_chatWindow NO_RESPONSE p)
    else
      match aiText with
      | Some v => s <- js_ToString v ;; Normal (set_chatWindow (pre_wrap s) p)
      | None => Normal (set_chatWindow NO_RESPONSE p)
      end.

Definition generateRoutine (env : Env) (p : Page) : Completion Page :=
  match chatWindow p with
  | None => Normal p
  | Some _ =>
      let selected :=
        getSelectedProductsData (allProductsCache p) (selectedProductIds p) in
      match selected with
      | [] => Normal (set_chatWindow SELECT_ONE p)
      | _ =>
          let apiKey := or_default (OPENAI_API_KEY p) "" in
          if negb (truthy apiKey) then
            localText <- buildLocalRoutine selected ;;
            Normal (set_chatWindow (pre_wrap localText) p)
          else
            let p1 := set_chatWindow GENERATING p in
            let req := routine_request apiKey selected in
            let p2 := add_request req p1 in
            try_catch (handle_response (fetchRoutine env req) p2)
              (fun err => Normal (set_chatWindow (request_failed err) p2))
      end
  end.

(** The products a view shows, when it shows cards. *)
Definition shown_products (v : option View) : option (list Product) :=
  match v with
  | Some (ViewCards cs) => Some (map card_product cs)
  | _ => None
  end.

(** ** Operations on the detail overlay *)

Inductive OverlayOp : Type :=
| OpOpen (product : Product) (card : nat)   (* showProductModal *)
| OpClose (elem : nat)                      (* close button or outside click *)
| OpEscape                                  (* Escape key *)
| OpCloseExisting.                          (* closeExistingModal *)

Definition run_op (p : Page) (op : OverlayOp) : Completion Page :=
  match op with
  | OpOpen product card => showProductModal product card p
  | OpClose elem => Normal (clickClose elem p)
  | OpEscape => Normal (pressEscape p)
  | OpCloseExisting => Normal (closeExistingModal p)
  end.

Fixpoint run_ops (p : Page) (ops : list OverlayOp) : Completion Page :=
  match ops with
  | [] => Normal p
  | op :: r => q <- run_op p op ;; run_ops q r
  end.

(** ** Sample catalog and pages *)

Definition cleanserA : Product :=
  mkProduct (Some (IdNum 1)) "A" (Some "CeraVe") (Some "Cleanser") None None.

Definition serumB : Product :=
  mkProduct (Some (IdNum 2)) "B" (Some "Lancome") (Some "Serum") None None.

Definition tonerT : Product :=
  mkProduct (Some (IdStr "t-7")) "T" (Some "Kiehls") (Some "Toner") None None.

Definition catalog0 : list Product := [cleanserA; serumB; tonerT].

Definition storage0 : LocalStorage := mkStorage true 5000 [].

(** A page as it is before [init]: an unset category, an empty search
    box, no selection and nothing loaded. *)
Definition page0 : Page :=
  mkPage (Some (mkSelect "" None)) (Some "") (Some ViewPlaceholder) (Some "")
    [] None storage0 [] [] 0 None [].

Definition offline : Request -> Completion Response :=
  fun _ => Throw (TypeError "Failed to fetch").

Definition env0 : Env := mkEnv (Normal (Some catalog0)) offline.

(** [page0] with the whole catalog rendered. *)
Definition page_cards : Page :=
  match displayProducts catalog0 (set_allProductsCache (Some catalog0) page0) with
  | Normal p => p
  | Throw _ => page0
  end.

(** [page0] once the catalog is loaded, with [A] selected and a key
    configured. *)
Definition page_remote : Page :=
  mkPage (Some (mkSelect "" None)) (Some "") (Some ViewPlaceholder) (Some "")
    ["1"] (Some catalog0) storage0 [] [] 0 (Some "sk-demo") [].

Fixpoint all_space (s : string) : bool :=
  match s with
  | EmptyString => true
  | String c r => is_js_space c && all_space r
  end.

(** Selected products for the routine builder. *)
Definition selected (n c : string) : SelectedData :=
  mkSelected None n (Some "Garnier") (Some c) "".


(** The step of a product, as the routine words it for its category. *)
Definition step_of (p : SelectedData) : Step :=
  if inb (normCategory p) order
  then step_as (normCategory p) p
  else step_in (normCategory p) p.

(** ** [escapeHtml] *)

(** [s.replace(/c/g, rep)] for a single character [c]. *)
Fixpoint replace_char (c : ascii) (rep s : string) : string :=
  match s with
  | EmptyString => EmptyString
  | String d r =>
      if Ascii.eqb d c then rep ++ replace_char c rep r
      else String d (replace_char c rep r)
  end.

Definition AMP : ascii := ascii_of_nat 38.
Definition LT : ascii := ascii_of_nat 60.
Definition GT : ascii := ascii_of_nat 62.
Definition QUOT : ascii := ascii_of_nat 34.
Definition APOS : ascii := ascii_of_nat 39.

Definition escapeHtml (str : string) : string :=
  replace_char APOS "&#39;"
    (replace_char QUOT "&quot;"
       (replace_char GT "&gt;"
          (replace_char LT "&lt;"
             (replace_char AMP "&amp;" str)))).

(** The entity of one character, and the text escaped in one pass. *)
Definition escape_char (c : ascii) : string :=
  if Ascii.eqb c AMP then "&amp;"
  else if Ascii.eqb c LT then "&lt;"
  else if Ascii.eqb c GT then "&gt;"
  else if Ascii.eqb c QUOT then "&quot;"
  else if Ascii.eqb c APOS then "&#39;"
  else String c EmptyString.

Fixpoint escape_all (s : string) : string :=
  match s with
  | EmptyString => EmptyString
  | String c r => escape_char c ++ escape_all r
  end.

(** Whether the character [c] occurs in [s]. *)
Fixpoint has_char (c : ascii) (s : string) : bool :=
  match s with
  | EmptyString => false
  | String d r => Ascii.eqb d c || has_char c r
  end.

(** Reading the five entities back; [skip] characters of an entity that
    has been recognized are still to be dropped. *)
Fixpoint read_entities (skip : nat) (s : string) : string :=
  match s with
  | EmptyString => EmptyString
  | String c r =>
      match skip with
      | S k => read_entities k r
      | O =>
          if Ascii.eqb c AMP then
            if prefix "amp;" r then String AMP (read_entities 4 r)
            else if prefix "lt;" r then String LT (read_entities 3 r)
            else if prefix "gt;" r then String GT (read_entities 3 r)
            else if prefix "quot;" r then String QUOT (read_entities 5 r)
            else if prefix "#39;" r then String APOS (read_entities 4 r)
            else String c (read_entities 0 r)
          else String c (read_entities 0 r)
      end
  end.

(** ** [renderSelectedProductsList] *)

(** One [.selected-item]: its [dataset.id], the markup of its name and the
    text written into the [data-id] attribute of its remove button. *)
Record SelectedItem : Type := mkItem {
  item_id : string;
  item_name : string;
  item_remove : string
}.

(** What [selectedProductsList.innerHTML] holds. *)
Inductive SummaryView : Type :=
| SummaryStatic                            (* the markup of the document *)
| SummaryNone                              (* "No selected products." *)
| SummaryItems (items : list SelectedItem).

(** The summary region: the list element, when the document has it, and
    the "Clear all" button, when it exists, with whether it is displayed. *)
Record Summary : Type := mkSummary {
  selectedProductsList : option SummaryView;
  clearSelections : option bool
}.

Definition summary_item (products : list Product) (i : string) : SelectedItem :=
  let name := match find_selected products i with
              | Some p => name p
              | None => i
              end in
  mkItem i (escapeHtml name) (escapeHtml i).

Definition renderSelectedProductsList (allProductsCache : option (list Product))
  (selectedProductIds : SelSet) (s : Summary) : Summary :=
  match selectedProductsList s with
  | None => s
  | Some _ =>
      match selectedProductIds with
      | [] =>
          mkSummary (Some SummaryNone)
            (match clearSelections s with
             | Some _ => Some false
             | None => None
             end)
      | _ =>
          let products :=
            match allProductsCache with Some ps => ps | None => [] end in
          mkSummary
            (Some (SummaryItems (map (summary_item products) selectedProductIds)))
            (Some true)
      end
  end.

(** ** The handlers of the summary region *)

(** [card.classList.remove("selected")] on the first card of the document
    whose [data-product-id] is [pid]. *)
Fixpoint unselect_first (pid : string) (cs : list Card) : list Card :=
  match cs with
  | [] => []
  | c :: r =>
      if card_pid c =? pid then set_selected false c :: r
      else c :: unselect_first pid r
  end.

Definition on_cards (f : list Card -> list Card) (v : option View)
  : option View :=
  match v with
  | Some (ViewCards cs) => Some (ViewCards (f cs))
  | _ => v
  end.

(** A click on the remove button of the item whose [data-id] is [i]. *)
Definition removeClick (i : string) (ps : Page * Summary) : Page * Summary :=
  let p := fst ps in
  if negb (truthy i) then ps
  else
    let p1 := set_selectedProductIds (Set_delete (selectedProductIds p) i) p in
    let p2 := set_localStorage
                (saveSelectedToStorage (selectedProductIds p1) (localStorage p1))
                p1 in
    let s1 := renderSelectedProductsList (allProductsCache p2)
                (selectedProductIds p2) (snd ps) in
    (set_productsContainer
       (on_cards (unselect_first i) (productsContainer p2)) p2,
     s1).

(** A click on the "Clear all" button. *)
Definition clearAllClick (ps : Page * Summary) : Page * Summary :=
  let p := fst ps in
  let p1 := set_selectedProductIds [] p in
  let p2 := set_localStorage
              (saveSelectedToStorage (selectedProductIds p1) (localStorage p1))
              p1 in
  let s1 := renderSelectedProductsList (allProductsCache p2)
              (selectedProductIds p2) (snd ps) in
  (set_productsContainer
     (on_cards (map (fun c => if card_selected c then set_selected false c else c))
        (productsContainer p2)) p2,
   s1).

(** ** Further sample data *)

Definition summary0 : Summary := mkSummary (Some SummaryStatic) None.

(** [page_cards] with the overlay of [T] open. *)
Definition page_open : Page :=
  match showProductModal tonerT 2 page_cards with
  | Normal q => q
  | Throw _ => page_cards
  end.


(** ** Selection and cards *)

(** Every card is drawn selected exactly when its identifier is a member
    of the selection. *)
Definition in_sync (p : Page) : Prop :=
  forall cs, productsContainer p = Some (ViewCards cs) ->
    forall c, In c cs ->
      card_selected c = inb (card_pid c) (selectedProductIds p).

(** The cards of the page are distinct elements with distinct identifiers. *)
Definition distinct_cards (p : Page) : Prop :=
  forall cs, productsContainer p = Some (ViewCards cs) ->
    NoDup (map card_pid cs) /\ NoDup (map card_elem cs).

(** What identifies a card and says whether it is drawn selected. *)
Definition card_core (c : Card) : nat * string * bool :=
  (card_elem c, card_pid c, card_selected c).

Definition cards_of (v : option View) : list Card :=
  match v with
  | Some (ViewCards cs) => cs
  | _ => []
  end.

Definition synced (sel : SelSet) (cs : list Card) : Prop :=
  Forall (fun c => card_selected c = inb (card_pid c) sel) cs.

(** The storage holds the selection: restoring into an empty set gives
    the selection of the page. *)
Definition mirrored (p : Page) : Prop :=
  loadSelectedFromStorage (localStorage p) [] = Some (selectedProductIds p).

(** The overlays of the page are well formed: there is at most one, each
    has its [_close] closure, made for it and registered for [keydown],
    and the elements named by overlays and handlers have been created. *)
Definition overlay_ok (p : Page) : Prop :=
  List.length (overlays p) <= 1
  /\ (forall o, In o (overlays p) ->
        exists cl, ov_close o = Some cl /\ cl_overlay cl = ov_elem o
                   /\ In cl (keydown p))
  /\ (forall cl, In cl (keydown p) -> cl_overlay cl < nextElem p).

(** The position of a category in a list; the length of the list when
    it is not there. *)
Fixpoint index_of (c : string) (l : list string) : nat :=
  match l with
  | [] => 0
  | x :: r => if c =? x then 0 else S (index_of c r)
  end.

(** The rank of a category in the routine: its position in the priority
    list, and 9 for every other category. *)
Definition rank (c : string) : nat := index_of c order.

Definition by_rank (a b : Step) : Prop := rank (step_cat a) <= rank (step_cat b).


(** The summary list, when the page has it, lists the selection: the
    placeholder for the empty selection and otherwise one item per
    selected identifier, in selection order. *)
Definition summary_matches (ps : Page * Summary) : Prop :=
  match selectedProductsList (snd ps) with
  | None => True
  | Some v =>
      match selectedProductIds (fst ps) with
      | [] => v = SummaryNone
      | sel => exists items, v = SummaryItems items /\ map item_id items = sel
      end
  end.

(** The text [["kept", {"toString": 1}, "lost"]]. *)
Definition stored_with_object : string :=
  "[" ++ DQUOTE ++ "kept" ++ DQUOTE ++ ", {" ++ DQUOTE ++ "toString" ++ DQUOTE
    ++ ": 1}, " ++ DQUOTE ++ "lost" ++ DQUOTE ++ "]".

(** The user's actions on the selection. *)
Inductive SelectionOp : Type :=
| OpCardClick (card : nat)
| OpRemove (i : string)
| OpClearAll.

(** The summary after the click handler of a card: it is drawn again, from
    the cache as it is before [loadProducts] is awaited, once the
    selection has been toggled. *)
Definition cardClick_summary (card : nat) (p : Page) (s : Summary) : Summary :=
  match find_card card (productsContainer p) with
  | None => s
  | Some c =>
      if negb (truthy (card_pid c)) then s
      else renderSelectedProductsList (allProductsCache p)
             (toggle (card_pid c) (selectedProductIds p)) s
  end.

Definition run_selection_op (env : Env) (ps : Page * Summary) (op : SelectionOp)
  : Completion (Page * Summary) :=
  match op with
  | OpCardClick card =>
      q <- cardClick env card (fst ps) ;;
      Normal (q, cardClick_summary card (fst ps) (snd ps))
  | OpRemove i => Normal (removeClick i ps)
  | OpClearAll => Normal (clearAllClick ps)
  end.

Fixpoint run_selection_ops (env : Env) (ps : Page * Summary)
  (ops : list SelectionOp) : Completion (Page * Summary) :=
  match ops with
  | [] => Normal ps
  | op :: r => q <- run_selection_op env ps op ;; run_selection_ops env q r
  end.

(** ** Terms that differ only in letter case or surrounding white space

    These definitions follow the words of the specification, not the
    code: they do not mention [trim] or [toLowerCase]. *)





(** ** Further responses of the generation endpoint *)

(** An endpoint that refuses the key: status 401 with a short body. *)
Definition unauthorized : Request -> Completion Response :=
  fun _ =>
    Normal (mkResponse false 401 "Unauthorized" (Normal "invalid key")
              (Throw (mkError "SyntaxError" "Unexpected token i in JSON"))).

Definition env_unauthorized : Env := mkEnv (Normal (Some catalog0)) unauthorized.


(* ================================================================== *)
(** * Part II. Properties *)
(* ================================================================== *)

(** ** Concatenation of strings *)

Lemma append_empty_r (s : string) : s ++ "" = s.
Proof. induction s as [|c s IH]; simpl; [reflexivity | now rewrite IH]. Qed.

Lemma append_assoc (a b c : string) : (a ++ b) ++ c = a ++ b ++ c.
Proof. induction a as [|x a IH]; simpl; [reflexivity | now rewrite IH]. Qed.

Lemma length_append (a b : string) :
  String.length (a ++ b) = String.length a + String.length b.
Proof. induction a as [|x a IH]; simpl; [reflexivity | now rewrite IH]. Qed.

(** ** Membership in a list of strings *)

Lemma inb_In (x : string) (l : list string) : inb x l = true <-> In x l.
Proof.
  unfold inb. rewrite existsb_exists. split.
  - intros [y [Hy He]]. apply String.eqb_eq in He. now subst.
  - intros H. exists x. split; [assumption | apply String.eqb_refl].
Qed.

Lemma inb_false (x : string) (l : list string) : inb x l = false <-> ~ In x l.
Proof.
  rewrite <- inb_In. destruct (inb x l); split; intros; congruence.
Qed.

Lemma inb_app (x : string) (l1 l2 : list string) :
  inb x (l1 ++ l2) = inb x l1 || inb x l2.
Proof. unfold inb. apply existsb_app. Qed.

Lemma inb_delete (x y : string) (s : SelSet) :
  inb y (Set_delete s x) = negb (x =? y) && inb y s.
Proof.
  unfold Set_delete. induction s as [|z s IH]; simpl.
  - now rewrite andb_false_r.
  - destruct (x =? z) eqn:Exz; simpl.
    + rewrite IH. apply String.eqb_eq in Exz. subst z.
      destruct (y =? x) eqn:Eyx; simpl.
      * apply String.eqb_eq in Eyx. subst y. now rewrite String.eqb_refl.
      * reflexivity.
    + rewrite IH. destruct (y =? z) eqn:Eyz; simpl.
      * apply String.eqb_eq in Eyz. subst z. rewrite Exz. reflexivity.
      * reflexivity.
Qed.

(** ** The selection set keeps its members distinct *)

Lemma Set_add_NoDup (s : SelSet) (x : string) :
  NoDup s -> NoDup (Set_add s x).
Proof.
  intros H. unfold Set_add. destruct (inb x s) eqn:E; [assumption|].
  apply inb_false in E.
  apply NoDup_app; [assumption | repeat constructor; intros [] | ].
  intros a Ha [Hb | []]. subst. contradiction.
Qed.

Lemma Set_delete_NoDup (s : SelSet) (x : string) :
  NoDup s -> NoDup (Set_delete s x).
Proof. intros H. unfold Set_delete. now apply NoDup_filter. Qed.

Lemma toggle_NoDup (pid : string) (s : SelSet) :
  NoDup s -> NoDup (toggle pid s).
Proof.
  intros H. unfold toggle. destruct (Set_has s (IdStr pid)).
  - now apply Set_delete_NoDup.
  - now apply Set_add_NoDup.
Qed.


(** ** Toggling a card's selection *)

Lemma toggle_flips (pid : string) (s : SelSet) :
  Set_has (toggle pid s) (IdStr pid) = negb (Set_has s (IdStr pid)).
Proof.
  unfold toggle. simpl. destruct (inb pid s) eqn:E; simpl.
  - rewrite inb_delete, String.eqb_refl. reflexivity.
  - unfold Set_add. rewrite E, inb_app, E. simpl.
    now rewrite String.eqb_refl.
Qed.

Lemma toggle_other (pid : string) (s : SelSet) (x : JsId) :
  x <> IdStr pid -> Set_has (toggle pid s) x = Set_has s x.
Proof.
  intros Hx. destruct x as [n|y]; [reflexivity|].
  assert (Hne : (pid =? y) = false).
  { apply String.eqb_neq. intros ->. now apply Hx. }
  unfold toggle. simpl. destruct (inb pid s) eqn:E.
  - rewrite inb_delete, Hne. reflexivity.
  - unfold Set_add. rewrite E, inb_app. simpl.
    rewrite String.eqb_sym, Hne. now rewrite !orb_false_r.
Qed.

(** C6.  A click on a card removes its identifier from the selection when
    it is a member and adds it otherwise, leaving every other membership as
    it was; two clicks in a row give back the membership the selection
    started with, for every value asked of [has]. *)
Theorem toggle_twice_restores_membership (pid : string) (s : SelSet) :
  Set_has (toggle pid s) (IdStr pid) = negb (Set_has s (IdStr pid))
  /\ (forall x, x <> IdStr pid -> Set_has (toggle pid s) x = Set_has s x)
  /\ (forall x, Set_has (toggle pid (toggle pid s)) x = Set_has s x).
Proof.
  split; [apply toggle_flips|].
  split; [intros x; apply toggle_other|].
  intros x. destruct x as [n|y]; [reflexivity|].
  destruct (String.eqb_spec y pid) as [->|Hne].
  - rewrite !toggle_flips. apply negb_involutive.
  - rewrite !toggle_other; [reflexivity| |]; intros [= ->]; now apply Hne.
Qed.

Lemma cardClick_selection (env : Env) (card : nat) (p q : Page) (c : Card) :
  find_card card (productsContainer p) = Some c ->
  truthy (card_pid c) = true ->
  cardClick env card p = Normal q ->
  selectedProductIds q = toggle (card_pid c) (selectedProductIds p).
Proof.
  intros Hc Ht. unfold cardClick. rewrite Hc, Ht. simpl.
  unfold loadProducts. simpl.
  destruct (allProductsCache p) as [ps|] eqn:Ec; simpl.
  - destruct (find_clicked ps (card_pid c)); simpl.
    + unfold showProductModal, clearHighlights. simpl.
      destruct (on_card card _ (productsContainer p)) as [[| |cs]|]; simpl;
        intros [= <-]; simpl; try reflexivity;
        destruct (overlays p); reflexivity.
    + intros [= <-]. reflexivity.
  - destruct (fetchProducts env) as [[ps|]|e]; simpl; try discriminate.
    destruct (find_clicked ps (card_pid c)); simpl.
    + unfold showProductModal, clearHighlights. simpl.
      destruct (on_card card _ (productsContainer p)) as [[| |cs]|]; simpl;
        intros [= <-]; simpl; try reflexivity;
        destruct (overlays p); reflexivity.
    + intros [= <-]. reflexivity.
Qed.

(** ** Identifier comparison *)

(** The materializer and the summary list compare [String(it.id ?? it.name)]
    with [String(id)]; a selected product is found whatever the type of
    its [id]. *)
Lemma find_selected_finds (products : list Product) (p : Product) :
  In p products ->
  exists p', find_selected products (String_of_id (product_pid p)) = Some p'
             /\ String_of_id (product_pid p') = String_of_id (product_pid p).
Proof.
  intros Hin. unfold find_selected.
  destruct (find _ products) as [p'|] eqn:E.
  - exists p'. split; [reflexivity|].
    apply find_some in E. destruct E as [_ E]. now apply String.eqb_eq in E.
  - exfalso. apply (find_none _ _ E) in Hin.
    now rewrite String.eqb_refl in Hin.
Qed.

(** The click handler compares [p.id ?? p.name] with the [dataset] string
    by [===]: a product with a numeric [id] is never found. *)
Lemma find_clicked_numeric (products : list Product) (pid : string) (p : Product) :
  find_clicked products pid = Some p -> exists s, product_pid p = IdStr s.
Proof.
  intros H. apply find_some in H. destruct H as [_ H].
  destruct (product_pid p) as [n|s]; [discriminate | now exists s].
Qed.

(** C4.  The catalog of the scenario, in which [A] has the numeric
    identifier 1, is rendered and the card of [A] is clicked.  The
    identifier ["1"] enters the selection and the materializer, which
    compares through [String], resolves it; the handler's own lookup
    compares the number 1 with the string ["1"] by [===], finds nothing and
    opens no overlay, and a later render asks [has(1)] of a set of strings
    and draws the card unselected.  A card of a product with a string
    identifier opens its overlay. *)
Theorem numeric_id_click_finds_no_product :
  exists q,
    cardClick env0 0 page_cards = Normal q
    /\ selectedProductIds q = ["1"]
    /\ find_selected catalog0 "1" = Some cleanserA
    /\ find_clicked catalog0 "1" = None
    /\ overlays q = []
    /\ (exists q', displayProducts [cleanserA] q = Normal q'
          /\ option_map card_selected
               (find_card (nextElem q) (productsContainer q')) = Some false)
    /\ (exists q2, cardClick env0 2 page_cards = Normal q2
          /\ map ov_product (overlays q2) = [tonerT]).
Proof.
  eexists. split; [vm_compute; reflexivity|].
  repeat split; try (vm_compute; reflexivity).
  - eexists. split; vm_compute; reflexivity.
  - eexists. split; vm_compute; reflexivity.
Qed.

(** ** The detail overlay *)

Lemma remove_overlay_length (elem : nat) (os : list Overlay) :
  List.length (remove_overlay elem os) <= List.length os.
Proof. apply filter_length_le. Qed.

Lemma closeModal_overlays (cl : Closure) (p : Page) :
  overlays (closeModal cl p) = remove_overlay (cl_overlay cl) (overlays p).
Proof. reflexivity. Qed.

Lemma clearHighlights_overlays (p q : Page) :
  clearHighlights p = Normal q ->
  overlays q = overlays p /\ keydown q = keydown p /\ nextElem q = nextElem p.
Proof.
  unfold clearHighlights.
  destruct (productsContainer p) as [[| |cs]|]; intros [= <-]; auto.
Qed.

(** [showProductModal] detaches the overlay it finds and appends its own;
    the listeners on the document are only ever added to. *)
Lemma showProductModal_effect (product : Product) (card : nat) (p q : Page) :
  showProductModal product card p = Normal q ->
  let cl := mkClosure (nextElem p) card in
  overlays q =
    (match overlays p with
     | [] => []
     | existing :: _ => remove_overlay (ov_elem existing) (overlays p)
     end ++ [mkOverlay (nextElem p) product (Some cl)])%list
  /\ keydown q = (keydown p ++ [cl])%list.
Proof.
  unfold showProductModal.
  destruct (clearHighlights p) as [p1|e] eqn:E; simpl; [|discriminate].
  apply clearHighlights_overlays in E. destruct E as (Ho & Hk & Hn).
  intros [= <-]. simpl.
  destruct (overlays p1) as [|o os] eqn:Eo; simpl;
    rewrite <- Ho, <- Hk, <- Hn; simpl; rewrite ?Eo; auto.
Qed.

Lemma pressEscape_overlays_length (ks : list Closure) (p : Page) :
  List.length (overlays (fold_left (fun q cl => closeModal cl q) ks p))
  <= List.length (overlays p).
Proof.
  revert p. induction ks as [|k ks IH]; intros p; simpl; [lia|].
  etransitivity; [apply IH|].
  rewrite closeModal_overlays. apply remove_overlay_length.
Qed.

(** Whatever is opened and closed, the body holds at most one overlay. *)
Lemma at_most_one_overlay (ops : list OverlayOp) (p q : Page) :
  List.length (overlays p) <= 1 ->
  run_ops p ops = Normal q ->
  List.length (overlays q) <= 1.
Proof.
  revert p. induction ops as [|op ops IH]; intros p Hp; simpl.
  - now intros [= <-].
  - destruct (run_op p op) as [p'|e] eqn:E; simpl; [|discriminate].
    apply IH. destruct op as [product card|elem| |]; simpl in E.
    + apply showProductModal_effect in E. destruct E as [E _]. rewrite E.
      destruct (overlays p) as [|o [|o' os]]; simpl in *; try lia.
      rewrite Nat.eqb_refl. simpl. lia.
    + injection E as <-. unfold clickClose.
      destruct (find _ (overlays p)) as [o|]; [|assumption].
      destruct (ov_close o); [|assumption].
      rewrite closeModal_overlays.
      etransitivity; [apply remove_overlay_length | assumption].
    + injection E as <-. unfold pressEscape.
      etransitivity; [apply pressEscape_overlays_length | assumption].
    + injection E as <-. unfold closeExistingModal.
      destruct (overlays p) as [|o os] eqn:Eo; [rewrite Eo; simpl; lia|].
      destruct (ov_close o).
      * rewrite closeModal_overlays.
        etransitivity; [apply remove_overlay_length | now rewrite Eo].
      * unfold set_overlays. cbn [overlays].
        etransitivity; [apply remove_overlay_length | assumption].
Qed.

(** [closeExistingModal], which [applyFilters] calls, runs the stored
    [_close] and takes the overlay's key listener off the document. *)
Lemma closeExistingModal_unregisters (p : Page) (o : Overlay) (cl : Closure) :
  overlays p = [o] ->
  ov_close o = Some cl ->
  cl_overlay cl = ov_elem o ->
  overlays (closeExistingModal p) = []
  /\ ~ In cl (keydown (closeExistingModal p)).
Proof.
  intros Ho Hc He. unfold closeExistingModal. rewrite Ho, Hc. split.
  - rewrite closeModal_overlays, Ho, He. simpl. now rewrite Nat.eqb_refl.
  - simpl. intros Hin. apply filter_In in Hin. destruct Hin as [_ Hin].
    now rewrite Nat.eqb_refl in Hin.
Qed.

(** C2.  The overlay of [A] is opened from its card and then the overlay of
    [B] from another card.  One overlay, that of [B], is attached afterwards,
    but [showProductModal] detached the overlay of [A] with [remove()] and
    did not run its [_close]: the [keydown] handler that the first call
    registered on the document is still registered beside the new one.
    With [closeExistingModal] between the two calls only the handler of the
    open overlay is registered. *)
Theorem replaced_overlay_keeps_its_key_listener :
  (exists q,
     run_ops page_cards [OpOpen cleanserA 0; OpOpen serumB 1] = Normal q
     /\ map ov_product (overlays q) = [serumB]
     /\ keydown q = [mkClosure 3 0; mkClosure 4 1])
  /\ (exists q,
        run_ops page_cards [OpOpen cleanserA 0; OpCloseExisting; OpOpen serumB 1]
          = Normal q
        /\ map ov_product (overlays q) = [serumB]
        /\ keydown q = [mkClosure 4 1]).
Proof.
  split; eexists; (split; [vm_compute; reflexivity|]);
    split; vm_compute; reflexivity.
Qed.

(** ** Filtering and the placeholder *)

Lemma closeModal_fields (cl : Closure) (p : Page) :
  categoryFilter (closeModal cl p) = categoryFilter p
  /\ searchInput (closeModal cl p) = searchInput p
  /\ allProductsCache (closeModal cl p) = allProductsCache p
  /\ (productsContainer p <> None -> productsContainer (closeModal cl p) <> None).
Proof.
  repeat split. simpl.
  destruct (productsContainer p) as [[| |cs]|]; simpl; congruence.
Qed.

Lemma closeExistingModal_fields (p : Page) :
  categoryFilter (closeExistingModal p) = categoryFilter p
  /\ searchInput (closeExistingModal p) = searchInput p
  /\ allProductsCache (closeExistingModal p) = allProductsCache p
  /\ (productsContainer p <> None ->
      productsContainer (closeExistingModal p) <> None).
Proof.
  unfold closeExistingModal. destruct (overlays p) as [|o os]; [auto|].
  destruct (ov_close o); [apply closeModal_fields | auto].
Qed.

Lemma clearHighlights_fields (p : Page) :
  productsContainer p <> None ->
  exists q, clearHighlights p = Normal q
    /\ categoryFilter q = categoryFilter p
    /\ searchInput q = searchInput p
    /\ allProductsCache q = allProductsCache p
    /\ productsContainer q <> None.
Proof.
  intros H. unfold clearHighlights.
  destruct (productsContainer p) as [[| |cs]|] eqn:E; [| | |congruence];
    eexists; (split; [reflexivity|]); simpl; rewrite ?E; repeat split; congruence.
Qed.

(** With no category and no query [applyFilters] shows the placeholder,
    whatever the catalog holds. *)
Lemma applyFilters_empty_terms (env : Env) (p : Page) (catalog : list Product) :
  productsContainer p <> None ->
  allProductsCache p = Some catalog
    \/ (allProductsCache p = None /\ fetchProducts env = Normal (Some catalog)) ->
  selected_category (categoryFilter p) = "" ->
  search_query (searchInput p) = "" ->
  exists q, applyFilters env p = Normal q
            /\ productsContainer q = Some ViewPlaceholder.
Proof.
  intros Hc Hload Hcat Hq. unfold applyFilters.
  destruct (closeExistingModal_fields p) as (F1 & F2 & F3 & F4).
  destruct (clearHighlights_fields (closeExistingModal p) (F4 Hc))
    as (p2 & E2 & G1 & G2 & G3 & G4).
  rewrite E2. simpl. unfold loadProducts. rewrite G3, F3.
  destruct Hload as [Hl | [Hl Hf]]; rewrite Hl; simpl.
  - rewrite G1, G2, F1, F2, Hcat, Hq. simpl.
    destruct (productsContainer p2); [|congruence].
    eexists. split; reflexivity.
  - rewrite Hf. simpl. rewrite G1, G2, F1, F2, Hcat, Hq. simpl.
    destruct (productsContainer p2); [|congruence].
    eexists. split; reflexivity.
Qed.

Lemma render_cards_products (sel : SelSet) (next : nat) (products : list Product) :
  map card_product (render_cards sel next products) = products.
Proof.
  revert next. induction products as [|p ps IH]; intros next; simpl;
    [reflexivity | now rewrite IH].
Qed.

(** With no default category the initial-load function renders a card for
    every product of the catalog. *)
Lemma initialLoad_without_category (env : Env) (p : Page) (catalog : list Product) :
  productsContainer p <> None ->
  allProductsCache p = None ->
  fetchProducts env = Normal (Some catalog) ->
  match categoryFilter p with Some ctl => ctl_value ctl | None => "" end = "" ->
  exists q, initialLoad env p = Normal q
            /\ shown_products (productsContainer q) = Some catalog.
Proof.
  intros Hc Hcache Hfetch Hcat. unfold initialLoad, loadProducts.
  rewrite Hcache, Hfetch. cbn [bind fst snd].
  change (categoryFilter (set_allProductsCache (Some catalog) p))
    with (categoryFilter p).
  rewrite Hcat. cbn [truthy String.eqb negb]. unfold displayProducts.
  change (productsContainer (set_allProductsCache (Some catalog) p))
    with (productsContainer p).
  destruct (productsContainer p); [|congruence].
  eexists. split; [reflexivity|]. simpl.
  now rewrite render_cards_products.
Qed.

(** C3.  On [page0] the category and the search box are empty.  [init]
    writes the placeholder and then its initial-load function overwrites it
    with a card for every product of the catalog; [applyFilters] on the
    resulting page, with the same empty terms, shows the placeholder. *)
Theorem initial_load_shows_whole_catalog :
  selected_category (categoryFilter page0) = ""
  /\ search_query (searchInput page0) = ""
  /\ option_map productsContainer (init_sync page0) = Some (Some ViewPlaceholder)
  /\ exists q,
       init env0 page0 = Some (Normal q)
       /\ shown_products (productsContainer q) = Some catalog0
       /\ exists q', applyFilters env0 q = Normal q'
                     /\ productsContainer q' = Some ViewPlaceholder.
Proof.
  repeat split; try (vm_compute; reflexivity).
  eexists. split; [vm_compute; reflexivity|].
  split; [vm_compute; reflexivity|].
  eexists. split; vm_compute; reflexivity.
Qed.

(** ** Materializing the selection *)

Lemma collect_selected_spec (products : list Product) (ids : list string)
  (acc : list SelectedData) :
  collect_selected products ids acc =
  (acc ++ flat_map (fun i => match find_selected products i with
                             | Some p => [selected_data p]
                             | None => []
                             end) ids)%list.
Proof.
  revert acc. induction ids as [|i ids IH]; intros acc; simpl.
  - now rewrite app_nil_r.
  - destruct (find_selected products i); rewrite IH; [|reflexivity].
    now rewrite <- app_assoc.
Qed.

(** The materialized list has, in selection order, one record for every
    identifier that resolves and nothing for one that does not. *)
Lemma getSelectedProductsData_spec (cache : option (list Product)) (s : SelSet) :
  getSelectedProductsData cache s =
  flat_map (fun i =>
              match find_selected (match cache with Some ps => ps | None => [] end) i with
              | Some p => [selected_data p]
              | None => []
              end) s.
Proof. unfold getSelectedProductsData. now rewrite collect_selected_spec. Qed.


(** ** Requesting a routine *)

(** Without a result area [generateRoutine] returns at once: nothing is
    written and nothing is sent. *)
Lemma generateRoutine_without_result_area (env : Env) (p : Page) :
  chatWindow p = None -> generateRoutine env p = Normal p.
Proof. intros H. unfold generateRoutine. now rewrite H. Qed.





(** Closes a branch of [generateRoutine]: the call returned, one request
    was logged, and each outcome that applies shows what it should. *)
Ltac shown_in_place :=
  eexists; split; [reflexivity|]; split; [reflexivity|];
  repeat split; intros; try congruence;
  repeat match goal with
         | H : Normal _ = Normal _ |- _ => injection H as <-
         end;
  cbn [chatWindow set_chatWindow]; congruence.

Lemma prefix_append (b c : string) : prefix b (b ++ c) = true.
Proof.
  induction b as [|x b IH]; cbn [append prefix].
  - destruct c; reflexivity.
  - destruct (ascii_dec x x); [assumption | congruence].
Qed.

(** A text includes each of the pieces it is put together from. *)
Lemma includes_middle (a b c : string) : includes (a ++ b ++ c) b = true.
Proof.
  induction a as [|x a IH]; cbn [append].
  - destruct (b ++ c) eqn:E; cbn [includes]; rewrite <- E, prefix_append;
      reflexivity.
  - cbn [includes]. rewrite IH. apply orb_true_r.
Qed.

(** The outcomes of a request in remote mode, with the texts as the
    script puts them together. *)
Lemma generateRoutine_remote (env : Env) (p : Page) :
  chatWindow p <> None ->
  getSelectedProductsData (allProductsCache p) (selectedProductIds p) <> [] ->
  truthy (or_default (OPENAI_API_KEY p) "") = true ->
  let req :=
    routine_request (or_default (OPENAI_API_KEY p) "")
      (getSelectedProductsData (allProductsCache p) (selectedProductIds p)) in
  exists q,
    generateRoutine env p = Normal q
    /\ requests q = (requests p ++ [req])%list
    /\ (forall e, fetchRoutine env req = Throw e ->
          chatWindow q = Some (request_failed e))
    /\ (forall res e,
          fetchRoutine env req = Normal res ->
          res_ok res = true -> res_json res = Throw e ->
          chatWindow q = Some (request_failed e))
    /\ (forall res text,
          fetchRoutine env req = Normal res ->
          res_ok res = false -> res_text res = Normal text ->
          chatWindow q =
            Some (api_error (res_status res) (res_statusText res) text))
    /\ (forall res e,
          fetchRoutine env req = Normal res ->
          res_ok res = false -> res_text res = Throw e ->
          chatWindow q = Some (request_failed e)).
Proof.
  intros Hc Hs Hk req. unfold generateRoutine.
  destruct (chatWindow p) as [w|]; [|congruence].
  destruct (getSelectedProductsData _ _) as [|sd sds] eqn:Es; [congruence|].
  rewrite Hk. cbn [negb]. fold req. cbv zeta.
  unfold handle_response.
  destruct (fetchRoutine env req) as [res|e] eqn:Ef; cbn [bind try_catch];
    [|shown_in_place].
  destruct (res_ok res) eqn:Eok; cbn [negb].
  - destruct (res_json res) as [data|e] eqn:Ej; cbn [bind try_catch];
      [|shown_in_place].
    destruct (falsy (extract_text data)); [shown_in_place|].
    destruct (extract_text data) as [v|]; [|shown_in_place].
    destruct (js_ToString v); cbn [bind try_catch]; shown_in_place.
  - destruct (res_text res) as [text|e] eqn:Et; cbn [bind try_catch];
      shown_in_place.
Qed.

(** C9.  Remote mode: the result area exists, some selected product
    resolves and a key is configured.  Then, whatever the network gives
    back, [generateRoutine] returns normally, and exactly one request has
    been added to the log.  A rejected [fetch] and a body that fails to
    decode as JSON are shown in the result area as the text "Request
    failed: " followed by the message of the error; a response that is not
    [ok] is shown as the text "API error: " followed by its status code,
    its status text and, in a [pre] element, its body as read by
    [text()], so that the text shown includes the code, the status text
    and the raw body. *)
Theorem remote_errors_are_shown_in_place (env : Env) (p : Page) :
  chatWindow p <> None ->
  getSelectedProductsData (allProductsCache p) (selectedProductIds p) <> [] ->
  truthy (or_default (OPENAI_API_KEY p) "") = true ->
  let req :=
    routine_request (or_default (OPENAI_API_KEY p) "")
      (getSelectedProductsData (allProductsCache p) (selectedProductIds p)) in
  exists q,
    generateRoutine env p = Normal q
    /\ requests q = (requests p ++ [req])%list
    /\ (forall e, fetchRoutine env req = Throw e ->
          chatWindow q
          = Some ("<div>Request failed: " ++ err_message e ++ "</div>"))
    /\ (forall res e,
          fetchRoutine env req = Normal res ->
          res_ok res = true -> res_json res = Throw e ->
          chatWindow q
          = Some ("<div>Request failed: " ++ err_message e ++ "</div>"))
    /\ (forall res text,
          fetchRoutine env req = Normal res ->
          res_ok res = false -> res_text res = Normal text ->
          exists msg,
            chatWindow q = Some msg
            /\ msg = "<div>API error: " ++ string_of_nat (res_status res) ++ " "
                     ++ res_statusText res
                     ++ "<pre style=" ++ DQUOTE ++ "white-space:pre-wrap"
                     ++ DQUOTE ++ ">" ++ text ++ "</pre></div>"
            /\ includes msg (string_of_nat (res_status res)) = true
            /\ includes msg (res_statusText res) = true
            /\ includes msg text = true)
    /\ (forall res e,
          fetchRoutine env req = Normal res ->
          res_ok res = false -> res_text res = Throw e ->
          chatWindow q
          = Some ("<div>Request failed: " ++ err_message e ++ "</div>")).
Proof.
  intros Hc Hs Hk req.
  destruct (generateRoutine_remote env p Hc Hs Hk)
    as (q & H1 & H2 & H3 & H4 & H5 & H6).
  exists q. split; [exact H1|]. split; [exact H2|].
  split; [exact H3|]. split; [exact H4|]. split; [|exact H6].
  intros res text Hf Hok Ht. eexists. split; [exact (H5 res text Hf Hok Ht)|].
  unfold api_error. split; [reflexivity|].
  split; [|split].
  - apply (includes_middle "<div>API error: ").
  - set (rest := "<pre style=" ++ _).
    rewrite <- (append_assoc (string_of_nat (res_status res)) " ").
    rewrite <- (append_assoc "<div>API error: ").
    apply includes_middle.
  - set (tail := "</pre></div>").
    rewrite <- (append_assoc DQUOTE ">").
    rewrite <- (append_assoc "white-space:pre-wrap").
    rewrite <- (append_assoc DQUOTE).
    rewrite <- (append_assoc "<pre style=").
    rewrite <- (append_assoc (res_statusText res)).
    rewrite <- (append_assoc " ").
    rewrite <- (append_assoc (string_of_nat (res_status res))).
    rewrite <- (append_assoc "<div>API error: ").
    apply includes_middle.
Qed.

(** A rejected [fetch], and a response with status 401. *)
Lemma remote_errors_are_shown_in_place_witness :
  (exists q,
     generateRoutine env0 page_remote = Normal q
     /\ List.length (requests q) = 1
     /\ chatWindow q = Some "<div>Request failed: Failed to fetch</div>")
  /\ (exists q,
        generateRoutine env_unauthorized page_remote = Normal q
        /\ List.length (requests q) = 1
        /\ chatWindow q
           = Some ("<div>API error: 401 Unauthorized<pre style=" ++ DQUOTE
                   ++ "white-space:pre-wrap" ++ DQUOTE
                   ++ ">invalid key</pre></div>")).
Proof.
  split.
  - destruct (remote_errors_are_shown_in_place env0 page_remote)
      as (q & H1 & H2 & H3 & _).
    + simpl. discriminate.
    + vm_compute. discriminate.
    + reflexivity.
    + exists q. split; [exact H1|]. split.
      * rewrite H2. reflexivity.
      * rewrite (H3 (TypeError "Failed to fetch") eq_refl). reflexivity.
  - destruct (remote_errors_are_shown_in_place env_unauthorized page_remote)
      as (q & H1 & H2 & _ & _ & H5 & _).
    + simpl. discriminate.
    + vm_compute. discriminate.
    + reflexivity.
    + exists q. split; [exact H1|]. split.
      * rewrite H2. reflexivity.
      * destruct (H5 _ "invalid key" eq_refl eq_refl eq_refl)
          as (msg & Hm & -> & _).
        exact Hm.
Defined.

(** ** The category filter *)




Lemma trimStart_cases (s : string) :
  (all_space s = true /\ trimStart s = "")
  \/ exists c r, trimStart s = String c r /\ is_js_space c = false
                 /\ forall w, trimStart (s ++ w) = String c r ++ w.
Proof.
  induction s as [|c s IH]; simpl.
  - left. split; reflexivity.
  - destruct (is_js_space c) eqn:Ec; simpl.
    + destruct IH as [[Ha Ht] | (d & r & Ht & Hd & Hw)].
      * left. now split.
      * right. exists d, r. split; [assumption|]. split; assumption.
    + right. exists c, s. split; [reflexivity|]. split; [assumption|].
      intros w. reflexivity.
Qed.


Lemma lower_char_idempotent (c : ascii) : lower_char (lower_char c) = lower_char c.
Proof.
  unfold lower_char.
  destruct ((65 <=? nat_of_ascii c)%nat && (nat_of_ascii c <=? 90)%nat) eqn:E.
  - apply andb_prop in E. destruct E as [E1 E2].
    apply Nat.leb_le in E1. apply Nat.leb_le in E2.
    rewrite nat_ascii_embedding by lia.
    replace ((nat_of_ascii c + 32 <=? 90)%nat) with false
      by (symmetry; apply Nat.leb_gt; lia).
    now rewrite andb_false_r.
  - now rewrite E.
Qed.

(** Lower-casing a term that is already in lower case changes nothing. *)
Lemma toLowerCase_idempotent (s : string) :
  toLowerCase (toLowerCase s) = toLowerCase s.
Proof.
  induction s as [|c s IH]; simpl; [reflexivity|].
  now rewrite lower_char_idempotent, IH.
Qed.
















(** ** Persisting and restoring the selection *)

(** Reading back one quoted character gives the character. *)
Lemma parse_quote_char (c : ascii) (rest : string) :
  parse_string_body (quote_char c ++ rest) = pcons c (parse_string_body rest).
Proof.
  destruct c as [b0 b1 b2 b3 b4 b5 b6 b7].
  destruct b0, b1, b2, b3, b4, b5, b6, b7; reflexivity.
Qed.

Lemma parse_quote_body (s rest : string) :
  parse_string_body (quote_body s ++ DQUOTE ++ rest) = POk (s, rest).
Proof.
  induction s as [|c s IH].
  - reflexivity.
  - cbn [quote_body]. rewrite append_assoc, parse_quote_char, IH. reflexivity.
Qed.

Lemma parse_value_quoted (f : nat) (s rest : string) :
  parse_value (S f) (QuoteJSONString s ++ rest) = POk (JStr s, rest).
Proof.
  unfold QuoteJSONString. rewrite !append_assoc.
  change (DQUOTE ++ quote_body s ++ DQUOTE ++ rest)
    with (String (ascii_of_nat 34) (quote_body s ++ DQUOTE ++ rest)).
  cbn [parse_value skip_ws]. change (is_json_ws (ascii_of_nat 34)) with false.
  cbv iota. change (nat_of_ascii (ascii_of_nat 34) =? 34)%nat with true.
  cbv iota. rewrite parse_quote_body. reflexivity.
Qed.

Lemma skip_ws_quoted (s rest : string) :
  skip_ws (QuoteJSONString s ++ rest) = QuoteJSONString s ++ rest.
Proof. reflexivity. Qed.

Lemma parse_elements_step (f : nat) (s : string) (acc : list JsonValue) :
  parse_elements (S f) s acc =
  pbind (parse_value f s) (fun vr =>
    match skip_ws (snd vr) with
    | String c r =>
        if (nat_of_ascii c =? 44)%nat
        then parse_elements f r (acc ++ [fst vr])
        else if (nat_of_ascii c =? 93)%nat
             then POk (JArr (acc ++ [fst vr]), r)
             else PSyntaxError
    | EmptyString => PSyntaxError
    end).
Proof. reflexivity. Qed.

(** The elements of a non-empty array of strings, up to the closing
    bracket. *)
Lemma parse_elements_strings (l : list string) :
  forall (fuel : nat) (x : string) (acc : list JsonValue) (rest : string),
    List.length l + 2 <= fuel ->
    parse_elements fuel
      (join "," (map QuoteJSONString (x :: l)) ++ "]" ++ rest) acc
    = POk (JArr (acc ++ map JStr (x :: l)), rest).
Proof.
  induction l as [|y l IH]; intros fuel x acc rest Hf.
  - destruct fuel as [|[|f]]; simpl in Hf; try lia.
    rewrite parse_elements_step. cbn [join map].
    rewrite parse_value_quoted. reflexivity.
  - destruct fuel as [|[|f]]; simpl in Hf; try lia.
    change (join "," (map QuoteJSONString (x :: y :: l)))
      with (QuoteJSONString x ++ "," ++ join "," (map QuoteJSONString (y :: l))).
    rewrite !append_assoc, parse_elements_step.
    rewrite parse_value_quoted. cbn [pbind fst snd].
    change ("," ++ join "," (map QuoteJSONString (y :: l)) ++ "]" ++ rest)
      with (String "," (join "," (map QuoteJSONString (y :: l)) ++ "]" ++ rest)).
    cbn [skip_ws]. change (is_json_ws ",") with false. cbv iota.
    change (nat_of_ascii "," =? 44)%nat with true. cbv iota.
    rewrite IH by lia.
    rewrite <- app_assoc. reflexivity.
Qed.

Lemma stringify_length (l : list string) :
  List.length l <= String.length (join "," (map QuoteJSONString l)).
Proof.
  induction l as [|x l IH]; [simpl; lia|].
  destruct l as [|y l].
  - cbn [map join List.length]. unfold QuoteJSONString.
    rewrite !length_append. change (String.length DQUOTE) with 1. lia.
  - change (join "," (map QuoteJSONString (x :: y :: l)))
      with (QuoteJSONString x ++ "," ++ join "," (map QuoteJSONString (y :: l))).
    rewrite !length_append. change (String.length ",") with 1.
    cbn [List.length] in *. lia.
Qed.

(** [JSON.parse] reads back what [JSON.stringify] wrote for an array of
    strings. *)
Lemma JSON_parse_stringify (l : list string) :
  JSON_parse (JSON_stringify l) = POk (JArr (map JStr l)).
Proof.
  unfold JSON_parse, JSON_stringify.
  destruct l as [|x l].
  - reflexivity.
  - set (body := join "," (map QuoteJSONString (x :: l))).
    assert (Hlen : List.length (x :: l) <= String.length body)
      by apply stringify_length.
    change ("[" ++ body ++ "]") with (String "[" (body ++ "]")).
    cbn [String.length]. replace (2 * S (String.length (body ++ "]")) + 2)
      with (S (2 * String.length (body ++ "]") + 3)) by lia.
    cbn [parse_value skip_ws]. change (is_json_ws "[") with false. cbv iota.
    change (nat_of_ascii "[" =? 34)%nat with false.
    change (nat_of_ascii "[" =? 91)%nat with true. cbv iota.
    assert (Hq : exists r, body ++ "]" = String (ascii_of_nat 34) r).
    { unfold body. destruct l; simpl; eexists; reflexivity. }
    destruct Hq as [r Hr]. rewrite Hr. cbn [skip_ws].
    change (is_json_ws (ascii_of_nat 34)) with false. cbv iota.
    change (nat_of_ascii (ascii_of_nat 34) =? 93)%nat with false. cbv iota.
    rewrite <- Hr. rewrite <- (append_empty_r (body ++ "]")).
    rewrite append_assoc. unfold body.
    rewrite parse_elements_strings.
    + reflexivity.
    + rewrite length_append. simpl in Hlen. fold body. simpl. lia.
Qed.

Lemma add_all_strings (l : list string) (acc : SelSet) :
  NoDup (acc ++ l) -> add_all (map JStr l) acc = (acc ++ l)%list.
Proof.
  revert acc. induction l as [|x l IH]; intros acc H; simpl.
  - now rewrite app_nil_r.
  - assert (Hx : inb x acc = false).
    { apply inb_false. intros Hin. apply NoDup_remove_2 in H.
      apply H. apply in_or_app. now left. }
    unfold Set_add. rewrite Hx.
    rewrite IH; rewrite <- app_assoc; [reflexivity | exact H].
Qed.

Lemma assoc_set_get {A} (k : string) (v : A) (l : list (string * A)) :
  assoc k (assoc_set k v l) = Some v.
Proof.
  induction l as [|[k' v'] l IH]; simpl.
  - now rewrite String.eqb_refl.
  - destruct (k =? k') eqn:E; simpl; rewrite E; [reflexivity | exact IH].
Qed.

(** What [saveSelectedToStorage] leaves under the storage key. *)
Lemma saveSelectedToStorage_item (s : SelSet) (st : LocalStorage) :
  ls_enabled st = true ->
  String.length (JSON_stringify s) <= ls_quota st ->
  getItem (saveSelectedToStorage s st) STORAGE_KEY
  = Normal (Some (JSON_stringify s)).
Proof.
  intros He Hq. unfold saveSelectedToStorage, setItem. rewrite He.
  cbn [negb]. apply Nat.leb_le in Hq. rewrite Hq.
  unfold getItem. cbn [ls_enabled ls_items].
  now rewrite assoc_set_get.
Qed.

(** C5.  For every selection set (distinct strings, in insertion order) and
    every storage that accepts the write, [saveSelectedToStorage] followed
    by [loadSelectedFromStorage] into the empty set gives the same set back:
    the same members, each a string, in the same order.  The stored item is
    the JSON array of the members. *)
Theorem persist_then_restore (s : SelSet) (st : LocalStorage) :
  NoDup s ->
  ls_enabled st = true ->
  String.length (JSON_stringify s) <= ls_quota st ->
  getItem (saveSelectedToStorage s st) STORAGE_KEY
    = Normal (Some (JSON_stringify s))
  /\ loadSelectedFromStorage (saveSelectedToStorage s st) [] = Some s.
Proof.
  intros Hs He Hq.
  pose proof (saveSelectedToStorage_item s st He Hq) as Hitem.
  split; [exact Hitem|].
  unfold loadSelectedFromStorage. rewrite Hitem.
  change (truthy (JSON_stringify s)) with true. cbn [negb].
  rewrite JSON_parse_stringify.
  now rewrite add_all_strings.
Qed.

Lemma persist_then_restore_witness :
  loadSelectedFromStorage
    (saveSelectedToStorage ["1"; "t-7"; "Revitalift Serum"] storage0) []
  = Some ["1"; "t-7"; "Revitalift Serum"].
Proof.
  apply (persist_then_restore ["1"; "t-7"; "Revitalift Serum"] storage0).
  - repeat constructor; simpl; intuition discriminate.
  - reflexivity.
  - vm_compute. repeat constructor.
Defined.

(** ** The local routine: grouping *)

Arguments inb : simpl never.

Lemma inb_cons (x y : string) (l : list string) :
  inb x (y :: l) = (x =? y) || inb x l.
Proof. reflexivity. Qed.

Lemma inb_filter_neq (x c : string) (l : list string) :
  inb x (filter (fun d => negb (d =? c)) l) = negb (x =? c) && inb x l.
Proof.
  induction l as [|d l IH]; [simpl; now rewrite andb_false_r|].
  cbn [filter]. destruct (String.eqb_spec d c) as [->|Hdc]; cbn [negb].
  - rewrite IH, inb_cons. destruct (x =? c); reflexivity.
  - rewrite !inb_cons, IH.
    destruct (String.eqb_spec x d) as [->|Hxd]; simpl; [|reflexivity].
    apply String.eqb_neq in Hdc. now rewrite Hdc.
Qed.

Lemma inb_firsts (x : string) (l : list string) : inb x (firsts l) = inb x l.
Proof.
  induction l as [|c l IH]; [reflexivity|].
  cbn [firsts]. rewrite !inb_cons, inb_filter_neq, IH.
  destruct (x =? c); reflexivity.
Qed.

Lemma firsts_NoDup (l : list string) : NoDup (firsts l).
Proof.
  induction l as [|c l IH]; simpl; constructor.
  - intros H. apply filter_In in H. destruct H as [_ H].
    now rewrite String.eqb_refl in H.
  - now apply NoDup_filter.
Qed.

Lemma firsts_snoc (l : list string) (c : string) :
  firsts (l ++ [c]) = if inb c l then firsts l else (firsts l ++ [c])%list.
Proof.
  induction l as [|a l IH]; simpl; [reflexivity|].
  rewrite IH, inb_cons.
  destruct (String.eqb_spec c a) as [->|Hca]; simpl.
  - destruct (inb a l); [reflexivity|].
    rewrite filter_app. simpl. rewrite String.eqb_refl. simpl.
    now rewrite app_nil_r.
  - destruct (inb c l); [reflexivity|].
    rewrite filter_app. simpl.
    apply String.eqb_neq in Hca. now rewrite Hca.
Qed.

Lemma bucket_of_snoc (c : string) (done : list SelectedData) (p : SelectedData) :
  bucket_of c (done ++ [p]) =
  (bucket_of c done ++ if normCategory p =? c then [p] else [])%list.
Proof. unfold bucket_of. rewrite filter_app. reflexivity. Qed.

Lemma bucket_of_absent (c : string) (ps : list SelectedData) :
  inb c (map normCategory ps) = false -> bucket_of c ps = [].
Proof.
  induction ps as [|p ps IH]; simpl; [reflexivity|].
  rewrite inb_cons. intros H. apply orb_false_elim in H. destruct H as [H1 H2].
  rewrite String.eqb_sym, H1. now apply IH.
Qed.

Lemma bucket_of_present (c : string) (ps : list SelectedData) :
  inb c (map normCategory ps) = true -> bucket_of c ps <> [].
Proof.
  induction ps as [|p ps IH]; simpl; [discriminate|].
  rewrite inb_cons, String.eqb_sym.
  destruct (normCategory p =? c); simpl; [discriminate | exact IH].
Qed.

Lemma assoc_tabulate {A} (f : string -> A) (K : list string) (c : string) :
  assoc c (tabulate f K) = if inb c K then Some (f c) else None.
Proof.
  induction K as [|k K IH]; simpl; [reflexivity|].
  rewrite inb_cons. destruct (String.eqb_spec c k) as [->|H]; simpl;
    [reflexivity | exact IH].
Qed.

Lemma tabulate_ext {A} (f g : string -> A) (K : list string) :
  (forall k, In k K -> f k = g k) -> tabulate f K = tabulate g K.
Proof.
  intros H. unfold tabulate. apply map_ext_in. intros k Hk. now rewrite H.
Qed.

Lemma tabulate_app {A} (f : string -> A) (K1 K2 : list string) :
  tabulate f (K1 ++ K2) = (tabulate f K1 ++ tabulate f K2)%list.
Proof. unfold tabulate. apply map_app. Qed.

Lemma filter_tabulate {A} (f : string -> A) (g : string -> bool) (K : list string) :
  filter (fun kv => g (fst kv)) (tabulate f K) = tabulate f (filter g K).
Proof.
  induction K as [|k K IH]; simpl; [reflexivity|].
  destruct (g k); simpl; now rewrite IH.
Qed.

Lemma map_fst_tabulate {A} (f : string -> A) (K : list string) :
  map fst (tabulate f K) = K.
Proof.
  unfold tabulate. rewrite map_map. simpl. apply map_id.
Qed.

Lemma bucket_set_present (f : string -> list SelectedData) (K : list string)
  (cat : string) (v : list SelectedData) :
  NoDup K -> In cat K ->
  bucket_set (tabulate f K) cat v =
  tabulate (fun k => if cat =? k then v else f k) K.
Proof.
  induction K as [|k K IH]; simpl; intros Hnd Hin; [contradiction|].
  inversion Hnd as [|? ? Hk HK]; subst.
  destruct (String.eqb_spec cat k) as [->|Hne].
  - f_equal. apply tabulate_ext. intros k' Hk'.
    destruct (String.eqb_spec k k') as [->|]; [contradiction | reflexivity].
  - f_equal. apply IH; [assumption|].
    destruct Hin as [->|Hin]; [contradiction | assumption].
Qed.

Lemma bucket_set_absent (b : Buckets) (cat : string) (v : list SelectedData) :
  assoc cat b = None -> bucket_set b cat v = (b ++ [(cat, v)])%list.
Proof.
  induction b as [|[k l] b IH]; simpl; [reflexivity|].
  destruct (cat =? k); [discriminate|]. intros H. now rewrite IH.
Qed.

Lemma bucket_set_last (b : Buckets) (cat : string) (v w : list SelectedData) :
  assoc cat b = None ->
  bucket_set (b ++ [(cat, v)])%list cat w = (b ++ [(cat, w)])%list.
Proof.
  induction b as [|[k l] b IH]; simpl.
  - now rewrite String.eqb_refl.
  - destruct (cat =? k); [discriminate|]. intros H. now rewrite IH.
Qed.

Lemma assoc_last_key (b : Buckets) (cat : string) (v : list SelectedData) :
  assoc cat b = None -> assoc cat (b ++ [(cat, v)])%list = Some v.
Proof.
  induction b as [|[k l] b IH]; simpl.
  - now rewrite String.eqb_refl.
  - destruct (cat =? k); [discriminate | exact IH].
Qed.

(** One turn of the grouping loop adds the product to the bucket of its
    category, creating the bucket at the end when the category is new. *)
Lemma bucket_push_grouped (done : list SelectedData) (p : SelectedData) :
  inherited (normCategory p) = false ->
  bucket_push (buckets_of done) p = Normal (buckets_of (done ++ [p])).
Proof.
  intros Hinh.
  set (cat := normCategory p) in *.
  assert (Hassoc : assoc cat (buckets_of done) =
                   if inb cat (map normCategory done)
                   then Some (bucket_of cat done) else None).
  { unfold buckets_of. now rewrite assoc_tabulate, inb_firsts. }
  assert (Hkeys : firsts (map normCategory (done ++ [p])) =
                  if inb cat (map normCategory done)
                  then firsts (map normCategory done)
                  else (firsts (map normCategory done) ++ [cat])%list).
  { rewrite map_app. cbn [map]. apply firsts_snoc. }
  unfold bucket_push. fold cat. cbv zeta. unfold bucket_get.
  destruct (inb cat (map normCategory done)) eqn:Ein.
  - rewrite Hassoc. rewrite Hassoc. f_equal.
    unfold buckets_of. rewrite Hkeys.
    rewrite bucket_set_present.
    + apply tabulate_ext. intros k Hk. rewrite bucket_of_snoc. fold cat.
      destruct (String.eqb_spec cat k) as [<-|]; [reflexivity|].
      now rewrite app_nil_r.
    + apply firsts_NoDup.
    + apply inb_In. now rewrite inb_firsts.
  - unfold inherited in Hinh. rewrite Hassoc.
    destruct (assoc cat objectPrototype); [discriminate|].
    rewrite (bucket_set_absent _ _ _ Hassoc).
    rewrite (assoc_last_key _ _ _ Hassoc).
    rewrite (bucket_set_last _ _ _ _ Hassoc).
    f_equal. unfold buckets_of. rewrite Hkeys, tabulate_app. f_equal.
    + apply tabulate_ext. intros k Hk. rewrite bucket_of_snoc. fold cat.
      destruct (String.eqb_spec cat k) as [<-|]; [|now rewrite app_nil_r].
      exfalso. apply inb_In in Hk. rewrite inb_firsts in Hk. congruence.
    + simpl. rewrite bucket_of_snoc. fold cat.
      now rewrite String.eqb_refl, (bucket_of_absent _ _ Ein).
Qed.

Lemma fill_buckets_grouped (ps done : list SelectedData) :
  (forall p, In p ps -> inherited (normCategory p) = false) ->
  fill_buckets ps (buckets_of done) = Normal (buckets_of (done ++ ps)).
Proof.
  revert done. induction ps as [|p ps IH]; intros done H; simpl.
  - now rewrite app_nil_r.
  - rewrite bucket_push_grouped by (apply H; now left). simpl.
    rewrite IH by (intros q Hq; apply H; now right).
    now rewrite <- app_assoc.
Qed.

(** ** The local routine: the priority walk and the remaining categories *)

Lemma flat_map_ext_In {A B} (f g : A -> list B) (l : list A) :
  (forall a, In a l -> f a = g a) -> flat_map f l = flat_map g l.
Proof.
  induction l as [|a l IH]; intros H; simpl; [reflexivity|].
  rewrite (H a (or_introl eq_refl)). f_equal.
  apply IH. intros b Hb. apply H. now right.
Qed.

Lemma inb_without (x c : string) (l : list string) :
  inb x (filter (fun k => negb (c =? k)) l) = negb (c =? x) && inb x l.
Proof. exact (inb_delete c x l). Qed.

Lemma filter_without (cat : string) (r K : list string) :
  filter (fun k => negb (inb k r)) (filter (fun k => negb (cat =? k)) K)
  = filter (fun k => negb (inb k (cat :: r))) K.
Proof.
  induction K as [|k K IH]; simpl; [reflexivity|].
  rewrite inb_cons, (String.eqb_sym k cat).
  destruct (cat =? k); simpl; [exact IH|].
  destruct (inb k r); simpl; now rewrite IH.
Qed.

Lemma order_NoDup : NoDup order.
Proof. change (NoDup (firsts order)). apply firsts_NoDup. Qed.

(** No category of the priority list names a property of [Object.prototype]. *)
Lemma order_not_inherited (c : string) : In c order -> inherited c = false.
Proof.
  intros H. simpl in H.
  repeat (destruct H as [<-|H]; [reflexivity|]). contradiction.
Qed.

(** The walk over a list of distinct categories emits the buckets it finds,
    in the order of the list, and deletes them. *)
Lemma ordered_steps_tabulate (f : string -> list SelectedData) :
  forall (cats K : list string) (steps : list Step),
    NoDup cats ->
    (forall c, In c cats -> inherited c = false) ->
    (forall k, In k K -> f k <> []) ->
    ordered_steps cats (tabulate f K) steps =
    Normal
      ((steps ++ flat_map (fun c => if inb c K then map (step_as c) (f c) else [])
                   cats)%list,
       tabulate f (filter (fun k => negb (inb k cats)) K)).
Proof.
  induction cats as [|cat r IH]; intros K steps Hnd Hinh Hne.
  - simpl. rewrite app_nil_r. do 3 f_equal.
    clear Hne. induction K as [|k K IHK]; simpl; [reflexivity|].
    now rewrite <- IHK.
  - inversion Hnd as [|? ? Hcat Hr]; subst.
    cbn [ordered_steps]. unfold bucket_get. rewrite assoc_tabulate.
    destruct (inb cat K) eqn:E.
    + assert (Hf : f cat <> []) by (apply Hne; now apply inb_In).
      destruct (f cat) as [|a l] eqn:Ef; [congruence|].
      unfold bucket_delete.
      rewrite (filter_tabulate f (fun k => negb (cat =? k))).
      rewrite IH; [| assumption | intros c Hc; apply Hinh; now right |].
      * rewrite filter_without. f_equal. f_equal.
        rewrite <- app_assoc. f_equal. cbn [flat_map]. rewrite E, Ef. f_equal.
        apply flat_map_ext_In. intros c Hc. rewrite inb_without.
        assert (Hne' : (cat =? c) = false).
        { apply String.eqb_neq. intros ->. contradiction. }
        now rewrite Hne'.
      * intros k Hk. apply filter_In in Hk. apply Hne. apply Hk.
    + pose proof (Hinh cat (or_introl eq_refl)) as Hi. unfold inherited in Hi.
      destruct (assoc cat objectPrototype); [discriminate|].
      rewrite IH; [| assumption | intros c Hc; apply Hinh; now right | assumption].
      cbn [flat_map]. rewrite E. cbn [app]. do 3 f_equal.
      apply filter_ext_in. intros k Hk. rewrite inb_cons.
      destruct (String.eqb_spec k cat) as [->|]; [|reflexivity].
      apply inb_In in Hk. congruence.
Qed.

(** The last loop emits, for each key it is given, the bucket of that key. *)
Lemma remaining_steps_tabulate (f : string -> list SelectedData) (K : list string) :
  forall (cats : list string) (steps : list Step),
    (forall c, In c cats -> In c K) ->
    remaining_steps cats (tabulate f K) steps =
    Normal (steps ++ flat_map (fun c => map (step_in c) (f c)) cats)%list.
Proof.
  induction cats as [|cat r IH]; intros steps H; simpl.
  - now rewrite app_nil_r.
  - unfold bucket_get. rewrite assoc_tabulate.
    assert (E : inb cat K = true) by (apply inb_In, H; now left).
    rewrite E, IH by (intros c Hc; apply H; now right).
    now rewrite <- app_assoc.
Qed.

(** ** The order of own property keys *)

Lemma insert_index_perm (x : N * string) (l : list (N * string)) :
  Permutation (insert_index x l) (x :: l).
Proof.
  induction l as [|y l IH]; simpl; [apply Permutation_refl|].
  destruct (fst x <=? fst y)%N; [apply Permutation_refl|].
  etransitivity; [apply perm_skip, IH | apply perm_swap].
Qed.

Lemma sort_index_perm (l : list (N * string)) : Permutation (sort_index l) l.
Proof.
  induction l as [|x l IH]; simpl; [constructor|].
  etransitivity; [apply insert_index_perm | now apply perm_skip].
Qed.



Lemma index_keys_filter (ks : list string) :
  map snd (index_keys ks) = filter is_index ks.
Proof.
  induction ks as [|k ks IH]; simpl; [reflexivity|].
  unfold is_index. destruct (arrayIndex k); simpl; now rewrite IH.
Qed.

Lemma filter_partition_perm {A} (f : A -> bool) (l : list A) :
  Permutation (filter f l ++ filter (fun x => negb (f x)) l) l.
Proof.
  induction l as [|x l IH]; simpl; [constructor|].
  destruct (f x); simpl.
  - now apply perm_skip.
  - etransitivity; [symmetry; apply Permutation_middle | now apply perm_skip].
Qed.

(** [Object.keys] lists every own key once. *)
Lemma key_order_perm (ks : list string) : Permutation (key_order ks) ks.
Proof.
  unfold key_order.
  etransitivity; [|apply (filter_partition_perm is_index)].
  apply Permutation_app_tail.
  rewrite <- index_keys_filter.
  apply Permutation_map, sort_index_perm.
Qed.

Lemma key_order_In (ks : list string) (c : string) :
  In c (key_order ks) -> In c ks.
Proof. apply Permutation_in, key_order_perm. Qed.


(** ** The local routine *)

Lemma buildLocalRoutine_steps (products : list SelectedData) :
  (forall p, In p products -> inherited (normCategory p) = false) ->
  buildLocalRoutine products = Normal (formatRoutine (routine_steps products)).
Proof.
  intros H. unfold buildLocalRoutine.
  change (@nil (string * list SelectedData)) with (buckets_of []).
  rewrite (fill_buckets_grouped products [] H). cbn [bind app].
  unfold buckets_of at 1.
  rewrite ordered_steps_tabulate.
  - cbn [bind fst snd app]. unfold Object_keys.
    rewrite map_fst_tabulate.
    rewrite remaining_steps_tabulate by apply key_order_In.
    cbn [bind]. do 2 f_equal. unfold routine_steps, priority_part.
    f_equal. apply flat_map_ext. intros c.
    destruct (inb c (firsts (map normCategory products))) eqn:E; [reflexivity|].
    rewrite inb_firsts in E. now rewrite (bucket_of_absent _ _ E).
  - apply order_NoDup.
  - apply order_not_inherited.
  - intros k Hk. apply bucket_of_present.
    rewrite <- inb_firsts. now apply inb_In.
Qed.

(** Every selected product has its step in the routine. *)
Lemma routine_steps_complete (products : list SelectedData) (p : SelectedData) :
  In p products -> In (step_of p) (routine_steps products).
Proof.
  intros Hp. unfold routine_steps, step_of. apply in_or_app.
  assert (Hb : In p (bucket_of (normCategory p) products)).
  { apply filter_In. split; [assumption | apply String.eqb_refl]. }
  destruct (inb (normCategory p) order) eqn:E.
  - left. apply in_flat_map. exists (normCategory p).
    split; [now apply inb_In | now apply in_map].
  - right. apply in_flat_map. exists (normCategory p).
    split; [|now apply in_map].
    apply (Permutation_in _ (Permutation_sym (key_order_perm _))).
    apply filter_In. split; [|now rewrite E].
    apply inb_In. rewrite inb_firsts. apply inb_In. now apply in_map.
Qed.

Lemma length_flat_map_steps (g : string -> SelectedData -> Step)
  (products : list SelectedData) (L : list string) :
  List.length (flat_map (fun c => map (g c) (bucket_of c products)) L)
  = List.length (flat_map (fun c => bucket_of c products) L).
Proof.
  induction L as [|c L IH]; simpl; [reflexivity|].
  now rewrite !length_app, length_map, IH.
Qed.

Lemma length_buckets_cons (p : SelectedData) (ps : list SelectedData)
  (L : list string) :
  NoDup L ->
  List.length (flat_map (fun c => bucket_of c (p :: ps)) L)
  = (if inb (normCategory p) L then 1 else 0)
    + List.length (flat_map (fun c => bucket_of c ps) L).
Proof.
  induction L as [|c L IH]; intros Hnd; [reflexivity|].
  inversion Hnd as [|? ? Hc HL]; subst.
  cbn [flat_map]. rewrite !length_app, (IH HL), inb_cons.
  unfold bucket_of at 1. cbn [filter]. fold (bucket_of c ps).
  destruct (String.eqb_spec (normCategory p) c) as [<-|Hne]; simpl.
  - apply inb_false in Hc. rewrite Hc. lia.
  - lia.
Qed.

(** Distinct categories that cover the selection hold each product once. *)
Lemma length_buckets (ps : list SelectedData) (L : list string) :
  NoDup L ->
  (forall p, In p ps -> In (normCategory p) L) ->
  List.length (flat_map (fun c => bucket_of c ps) L) = List.length ps.
Proof.
  intros Hnd. induction ps as [|p ps IH]; intros Hcov.
  - induction L as [|c L IHL]; [reflexivity|].
    inversion Hnd; subst. simpl. now apply IHL.
  - rewrite (length_buckets_cons p ps L Hnd).
    assert (E : inb (normCategory p) L = true)
      by (apply inb_In, Hcov; now left).
    rewrite E, IH by (intros q Hq; apply Hcov; now right).
    reflexivity.
Qed.

(** The routine has exactly one step per selected product. *)
Lemma routine_steps_length (products : list SelectedData) :
  List.length (routine_steps products) = List.length products.
Proof.
  unfold routine_steps, priority_part, remaining_part.
  rewrite length_app, !length_flat_map_steps, <- length_app, <- flat_map_app.
  apply length_buckets.
  - apply NoDup_app.
    + apply order_NoDup.
    + apply (Permutation_NoDup (Permutation_sym (key_order_perm _))).
      apply NoDup_filter, firsts_NoDup.
    + intros c Hc Hk. apply key_order_In, filter_In in Hk.
      destruct Hk as [_ Hk]. apply inb_In in Hc. now rewrite Hc in Hk.
  - intros p Hp. apply in_or_app.
    destruct (inb (normCategory p) order) eqn:E.
    + left. now apply inb_In.
    + right.
      apply (Permutation_in _ (Permutation_sym (key_order_perm _))).
      apply filter_In. split; [|now rewrite E].
      apply inb_In. rewrite inb_firsts. apply inb_In. now apply in_map.
Qed.

(** A category that names a property of [Object.prototype] makes the
    grouping loop call [push] on the inherited value. *)
Example constructor_category_throws :
  buildLocalRoutine [selected "X" "Constructor"]
  = Throw (TypeError "buckets[cat].push is not a function").
Proof. reflexivity. Qed.




(* ================================================================== *)
(** * Part III. Further properties of the script *)
(* ================================================================== *)

(** ** [escapeHtml] *)

Lemma replace_char_append (c : ascii) (rep a b : string) :
  replace_char c rep (a ++ b) = replace_char c rep a ++ replace_char c rep b.
Proof.
  induction a as [|d a IH]; simpl; [reflexivity|].
  destruct (Ascii.eqb d c); simpl; rewrite IH; [|reflexivity].
  now rewrite append_assoc.
Qed.

(** The five replacements in a row escape each character once: the
    ampersands that the later replacements write are not escaped again. *)
Lemma escapeHtml_single_pass (s : string) : escapeHtml s = escape_all s.
Proof.
  unfold escapeHtml. induction s as [|d s IH]; [reflexivity|].
  cbn [replace_char escape_all]. unfold escape_char.
  destruct (Ascii.eqb d AMP) eqn:E1.
  { rewrite !replace_char_append, IH. reflexivity. }
  cbn [replace_char].
  destruct (Ascii.eqb d LT) eqn:E2.
  { rewrite !replace_char_append, IH. reflexivity. }
  cbn [replace_char].
  destruct (Ascii.eqb d GT) eqn:E3.
  { rewrite !replace_char_append, IH. reflexivity. }
  cbn [replace_char].
  destruct (Ascii.eqb d QUOT) eqn:E4.
  { rewrite !replace_char_append, IH. reflexivity. }
  cbn [replace_char].
  destruct (Ascii.eqb d APOS) eqn:E5.
  { rewrite IH. reflexivity. }
  rewrite IH. reflexivity.
Qed.

Lemma has_char_append (c : ascii) (a b : string) :
  has_char c (a ++ b) = has_char c a || has_char c b.
Proof.
  induction a as [|d a IH]; simpl; [reflexivity|].
  now rewrite IH, orb_assoc.
Qed.

Lemma escape_char_clean (d : ascii) :
  has_char LT (escape_char d) = false
  /\ has_char GT (escape_char d) = false
  /\ has_char QUOT (escape_char d) = false
  /\ has_char APOS (escape_char d) = false.
Proof.
  unfold escape_char.
  destruct (Ascii.eqb d AMP) eqn:E1; [repeat split|].
  destruct (Ascii.eqb d LT) eqn:E2; [repeat split|].
  destruct (Ascii.eqb d GT) eqn:E3; [repeat split|].
  destruct (Ascii.eqb d QUOT) eqn:E4; [repeat split|].
  destruct (Ascii.eqb d APOS) eqn:E5; [repeat split|].
  simpl. rewrite E2, E3, E4, E5. repeat split.
Qed.

Lemma escapeHtml_clean (s : string) :
  has_char LT (escapeHtml s) = false /\ has_char GT (escapeHtml s) = false.
Proof.
  rewrite escapeHtml_single_pass.
  induction s as [|d s (I1 & I2)]; [split; reflexivity|].
  cbn [escape_all]. rewrite !has_char_append, I1, I2.
  destruct (escape_char_clean d) as (C1 & C2 & _).
  now rewrite C1, C2.
Qed.

(** X1.  The text [escapeHtml] returns holds none of the characters that
    open or close a tag or end a quoted attribute value: no [<], no [>], no
    double quote and no apostrophe, whatever the input. *)
Theorem escapeHtml_leaves_no_markup (s : string) :
  has_char LT (escapeHtml s) = false
  /\ has_char GT (escapeHtml s) = false
  /\ has_char QUOT (escapeHtml s) = false
  /\ has_char APOS (escapeHtml s) = false.
Proof.
  rewrite escapeHtml_single_pass.
  induction s as [|d s (I1 & I2 & I3 & I4)]; [repeat split|].
  cbn [escape_all]. rewrite !has_char_append, I1, I2, I3, I4.
  destruct (escape_char_clean d) as (C1 & C2 & C3 & C4).
  now rewrite C1, C2, C3, C4.
Qed.

Lemma read_entity (rest : string) :
  read_entities 0 ("&amp;" ++ rest) = String AMP (read_entities 0 rest)
  /\ read_entities 0 ("&lt;" ++ rest) = String LT (read_entities 0 rest)
  /\ read_entities 0 ("&gt;" ++ rest) = String GT (read_entities 0 rest)
  /\ read_entities 0 ("&quot;" ++ rest) = String QUOT (read_entities 0 rest)
  /\ read_entities 0 ("&#39;" ++ rest) = String APOS (read_entities 0 rest).
Proof. repeat split; cbn; destruct rest; reflexivity. Qed.

Lemma read_entities_escape (s : string) :
  read_entities 0 (escape_all s) = s.
Proof.
  induction s as [|d s IH]; [reflexivity|].
  cbn [escape_all]. unfold escape_char.
  destruct (read_entity (escape_all s)) as (R1 & R2 & R3 & R4 & R5).
  destruct (Ascii.eqb d AMP) eqn:E1.
  { apply Ascii.eqb_eq in E1. subst d. now rewrite R1, IH. }
  destruct (Ascii.eqb d LT) eqn:E2.
  { apply Ascii.eqb_eq in E2. subst d. now rewrite R2, IH. }
  destruct (Ascii.eqb d GT) eqn:E3.
  { apply Ascii.eqb_eq in E3. subst d. now rewrite R3, IH. }
  destruct (Ascii.eqb d QUOT) eqn:E4.
  { apply Ascii.eqb_eq in E4. subst d. now rewrite R4, IH. }
  destruct (Ascii.eqb d APOS) eqn:E5.
  { apply Ascii.eqb_eq in E5. subst d. now rewrite R5, IH. }
  change (String d "" ++ escape_all s) with (String d (escape_all s)).
  cbn [read_entities]. rewrite E1, IH. reflexivity.
Qed.

(** X2.  Two different texts have different escapes: an identifier can be
    told from every other by the text [escapeHtml] writes for it, also when
    one of them already reads like an entity. *)
Theorem escapeHtml_keeps_texts_apart (a b : string) :
  a <> b -> escapeHtml a <> escapeHtml b.
Proof.
  intros Hne Heq. apply Hne.
  rewrite <- (read_entities_escape a), <- (read_entities_escape b).
  rewrite <- !escapeHtml_single_pass. now rewrite Heq.
Qed.

Lemma escapeHtml_keeps_texts_apart_witness :
  escapeHtml "<" <> escapeHtml "&lt;".
Proof.
  apply (escapeHtml_keeps_texts_apart "<" "&lt;").
  discriminate.
Defined.

(** ** The summary of the selection *)

Lemma summary_item_clean (products : list Product) (i : string) :
  has_char LT (item_name (summary_item products i)) = false
  /\ has_char GT (item_name (summary_item products i)) = false
  /\ read_entities 0 (item_remove (summary_item products i)) = i.
Proof.
  unfold summary_item. cbn [item_name item_remove].
  destruct (escapeHtml_clean
              (match find_selected products i with
               | Some p => name p
               | None => i
               end)) as (H1 & H2).
  repeat split; try assumption.
  rewrite escapeHtml_single_pass. apply read_entities_escape.
Qed.

(** X3.  When the page has the summary list, drawing it for an empty
    selection writes the "no selected products" placeholder and leaves no
    "Clear all" button displayed; for a non-empty selection it writes one
    item per selected identifier, in selection order, and the "Clear all"
    button exists and is displayed.  The name of an item holds no [<] and
    no [>], and the [data-id] text of its remove button reads back as the
    identifier; while the catalog is not loaded the name is the escaped
    identifier. *)
Theorem summary_lists_the_selection
  (cache : option (list Product)) (sel : SelSet) (s : Summary) :
  selectedProductsList s <> None ->
  let s' := renderSelectedProductsList cache sel s in
  (sel = [] ->
     selectedProductsList s' = Some SummaryNone
     /\ clearSelections s' <> Some true)
  /\ (sel <> [] ->
      exists items,
        selectedProductsList s' = Some (SummaryItems items)
        /\ map item_id items = sel
        /\ clearSelections s' = Some true
        /\ (forall it, In it items ->
              has_char LT (item_name it) = false
              /\ has_char GT (item_name it) = false
              /\ read_entities 0 (item_remove it) = item_id it)
        /\ (cache = None -> map item_name items = map escapeHtml sel)).
Proof.
  intros Hl s'. subst s'. unfold renderSelectedProductsList.
  destruct (selectedProductsList s) as [v|]; [|congruence].
  split.
  - intros ->. split; [reflexivity|].
    cbn [clearSelections]. destruct (clearSelections s); discriminate.
  - intros Hne. destruct sel as [|i sel]; [congruence|].
    eexists. split; [reflexivity|].
    split; [rewrite map_map; apply map_id|].
    split; [reflexivity|]. split.
    + intros it Hit. apply in_map_iff in Hit. destruct Hit as (j & <- & _).
      destruct (summary_item_clean
                  (match cache with Some ps => ps | None => [] end) j)
        as (H1 & H2 & H3).
      repeat split; assumption.
    + intros ->. rewrite map_map. reflexivity.
Qed.

Lemma summary_lists_the_selection_witness :
  exists items,
    selectedProductsList
      (renderSelectedProductsList (Some catalog0) ["1"; "<b>"] summary0)
    = Some (SummaryItems items)
    /\ map item_id items = ["1"; "<b>"]
    /\ map item_name items = ["A"; "&lt;b&gt;"].
Proof.
  destruct (summary_lists_the_selection (Some catalog0) ["1"; "<b>"] summary0)
    as [_ H].
  - discriminate.
  - destruct H as (items & H1 & H2 & _); [discriminate|].
    exists items. split; [exact H1|]. split; [exact H2|].
    revert H1. cbv. intros [= <-]. reflexivity.
Defined.

(** ** Cards and selection stay in step *)

Lemma in_sync_synced (p : Page) :
  in_sync p <-> synced (selectedProductIds p) (cards_of (productsContainer p)).
Proof.
  unfold in_sync, synced. rewrite Forall_forall. split.
  - intros H c Hc. destruct (productsContainer p) as [[| |cs]|] eqn:E;
      simpl in Hc; try contradiction. now apply (H cs).
  - intros H cs E c Hc. apply H. now rewrite E.
Qed.

Lemma distinct_cards_of (p : Page) :
  distinct_cards p <->
  NoDup (map card_pid (cards_of (productsContainer p)))
  /\ NoDup (map card_elem (cards_of (productsContainer p))).
Proof.
  unfold distinct_cards. split.
  - intros H. destruct (productsContainer p) as [[| |cs]|] eqn:E; simpl;
      try (split; constructor). now apply H.
  - intros H cs E. now rewrite E in H.
Qed.

Lemma synced_core (sel : SelSet) (cs cs0 : list Card) :
  map card_core cs = map card_core cs0 -> synced sel cs0 -> synced sel cs.
Proof.
  unfold synced. intros Hm H.
  assert (G : forall l, Forall (fun c => card_selected c = inb (card_pid c) sel) l
              <-> Forall (fun t => snd t = inb (snd (fst t)) sel) (map card_core l)).
  { intros l. rewrite Forall_map. reflexivity. }
  apply G. rewrite Hm. now apply G.
Qed.

Lemma core_pids (cs cs0 : list Card) :
  map card_core cs = map card_core cs0 ->
  map card_pid cs = map card_pid cs0 /\ map card_elem cs = map card_elem cs0.
Proof.
  intros H. split.
  - change card_pid with (fun c => snd (fst (card_core c))).
    rewrite <- !(map_map card_core (fun t => snd (fst t))). now rewrite H.
  - change card_elem with (fun c => fst (fst (card_core c))).
    rewrite <- !(map_map card_core (fun t => fst (fst t))). now rewrite H.
Qed.

Lemma unhighlight_first_core (cs : list Card) :
  map card_core (unhighlight_first cs) = map card_core cs.
Proof.
  induction cs as [|c cs IH]; simpl; [reflexivity|].
  destruct (card_highlighted c); simpl; [reflexivity | now rewrite IH].
Qed.

Lemma highlight_core (elem : nat) (h : bool) (cs : list Card) :
  map card_core
    (map (fun c => if (card_elem c =? elem)%nat then set_highlight h c else c) cs)
  = map card_core cs.
Proof.
  rewrite map_map. apply map_ext. intros c.
  destruct (card_elem c =? elem)%nat; reflexivity.
Qed.

Lemma cards_of_on_card (elem : nat) (f : Card -> Card) (v : option View) :
  cards_of (on_card elem f v)
  = map (fun c => if (card_elem c =? elem)%nat then f c else c) (cards_of v).
Proof. destruct v as [[| |cs]|]; reflexivity. Qed.

(** Opening the overlay changes highlights only. *)
Lemma showProductModal_cards (product : Product) (card : nat) (p q : Page) :
  showProductModal product card p = Normal q ->
  selectedProductIds q = selectedProductIds p
  /\ localStorage q = localStorage p
  /\ map card_core (cards_of (productsContainer q))
     = map card_core (cards_of (productsContainer p)).
Proof.
  unfold showProductModal, clearHighlights.
  destruct (productsContainer p) as [[| |cs]|] eqn:E; simpl; try discriminate;
    intros [= <-]; simpl; rewrite ?E;
    (destruct (overlays p); simpl; rewrite ?E; repeat split; try reflexivity).
  - now rewrite highlight_core, unhighlight_first_core.
  - now rewrite highlight_core, unhighlight_first_core.
Qed.

Lemma NoDup_map_same {A B} (f : A -> B) (l : list A) (a b : A) :
  NoDup (map f l) -> In a l -> In b l -> f a = f b -> a = b.
Proof.
  induction l as [|x l IH]; simpl; intros Hnd Ha Hb Hf; [contradiction|].
  inversion Hnd as [|? ? Hx Hl]; subst.
  destruct Ha as [->|Ha], Hb as [->|Hb]; try reflexivity.
  - exfalso. apply Hx. rewrite Hf. now apply in_map.
  - exfalso. apply Hx. rewrite <- Hf. now apply in_map.
  - now apply IH.
Qed.

Lemma inb_toggle (pid x : string) (s : SelSet) :
  inb x (toggle pid s) = if x =? pid then negb (inb pid s) else inb x s.
Proof.
  destruct (String.eqb_spec x pid) as [->|Hne].
  - exact (toggle_flips pid s).
  - apply (toggle_other pid s (IdStr x)). intros [= ->]. now apply Hne.
Qed.

(** What the click handler leaves behind when it returns. *)
Lemma cardClick_state (env : Env) (card : nat) (p q : Page) (c : Card) :
  find_card card (productsContainer p) = Some c ->
  truthy (card_pid c) = true ->
  cardClick env card p = Normal q ->
  selectedProductIds q = toggle (card_pid c) (selectedProductIds p)
  /\ localStorage q
     = saveSelectedToStorage (toggle (card_pid c) (selectedProductIds p))
         (localStorage p)
  /\ map card_core (cards_of (productsContainer q))
     = map card_core
         (map (fun d => if (card_elem d =? card)%nat
                        then set_selected
                               (negb (inb (card_pid c) (selectedProductIds p))) d
                        else d)
            (cards_of (productsContainer p))).
Proof.
  intros Hc Ht. unfold cardClick. rewrite Hc, Ht. cbn [negb].
  set (p2 := set_localStorage _ _).
  assert (H2 : selectedProductIds p2 = toggle (card_pid c) (selectedProductIds p)
               /\ localStorage p2
                  = saveSelectedToStorage
                      (toggle (card_pid c) (selectedProductIds p)) (localStorage p)
               /\ cards_of (productsContainer p2)
                  = map (fun d => if (card_elem d =? card)%nat
                                  then set_selected
                                         (negb (inb (card_pid c)
                                                  (selectedProductIds p))) d
                                  else d)
                      (cards_of (productsContainer p)))
    by (repeat split; apply cards_of_on_card).
  destruct H2 as (S2 & L2 & C2).
  assert (Hfin : forall p3 : Page,
            selectedProductIds p3 = selectedProductIds p2 ->
            localStorage p3 = localStorage p2 ->
            productsContainer p3 = productsContainer p2 ->
            forall products,
              match find_clicked products (card_pid c) with
              | Some product => showProductModal product card p3
              | None => Normal p3
              end = Normal q ->
              selectedProductIds q = selectedProductIds p2
              /\ localStorage q = localStorage p2
              /\ map card_core (cards_of (productsContainer q))
                 = map card_core (cards_of (productsContainer p2))).
  { intros p3 E1 E2 E3 products.
    destruct (find_clicked products (card_pid c)).
    - intros H. apply showProductModal_cards in H.
      destruct H as (A & B & C). rewrite A, B, C, E1, E2, E3. auto.
    - intros [= <-]. rewrite E1, E2, E3. auto. }
  unfold loadProducts.
  destruct (allProductsCache p2) as [ps|] eqn:Ec; cbn [bind fst snd].
  - intros H. apply Hfin in H; try reflexivity.
    destruct H as (A & B & C). rewrite A, B, C, S2, L2, C2. auto.
  - destruct (fetchProducts env) as [[ps|]|e]; cbn [bind fst snd];
      try discriminate.
    intros H. apply Hfin in H; try reflexivity.
    destruct H as (A & B & C). rewrite A, B, C, S2, L2, C2. auto.
Qed.

(** ** Every change of the selection is persisted *)

Lemma saveSelectedToStorage_settings (s : SelSet) (st : LocalStorage) :
  ls_enabled (saveSelectedToStorage s st) = ls_enabled st
  /\ ls_quota (saveSelectedToStorage s st) = ls_quota st.
Proof.
  unfold saveSelectedToStorage, setItem.
  destruct (ls_enabled st) eqn:E; cbn [negb]; [|auto].
  destruct (String.length (JSON_stringify s) <=? ls_quota st)%nat; simpl; auto.
Qed.

Lemma restore_after_save (s : SelSet) (st : LocalStorage) :
  NoDup s ->
  ls_enabled st = true ->
  String.length (JSON_stringify s) <= ls_quota st ->
  loadSelectedFromStorage (saveSelectedToStorage s st) [] = Some s.
Proof.
  intros Hs He Hq. unfold loadSelectedFromStorage.
  rewrite (saveSelectedToStorage_item s st He Hq).
  change (truthy (JSON_stringify s)) with true. cbn [negb].
  rewrite JSON_parse_stringify. now rewrite add_all_strings.
Qed.

(** X4.  On a page whose storage mirrors the selection, each action on the
    selection (a click on a card, a click on a remove button, "Clear all")
    that returns leaves the storage mirroring the new selection, provided
    the storage is enabled and the JSON text of the new selection fits its
    quota; the members of the selection stay distinct. *)
Theorem selection_actions_are_persisted
  (env : Env) (op : SelectionOp) (ps qs : Page * Summary) :
  mirrored (fst ps) ->
  NoDup (selectedProductIds (fst ps)) ->
  ls_enabled (localStorage (fst ps)) = true ->
  run_selection_op env ps op = Normal qs ->
  String.length (JSON_stringify (selectedProductIds (fst qs)))
    <= ls_quota (localStorage (fst ps)) ->
  mirrored (fst qs) /\ NoDup (selectedProductIds (fst qs)).
Proof.
  intros Hm Hnd He Hrun Hq. destruct ps as [p s]. cbn [fst snd] in *.
  destruct op as [card|i|]; cbn [run_selection_op fst snd] in Hrun.
  - destruct (cardClick env card p) as [q|e] eqn:Ec; [|discriminate].
    injection Hrun as <-. cbn [fst] in *.
    destruct (find_card card (productsContainer p)) as [c|] eqn:Ef.
    + destruct (truthy (card_pid c)) eqn:Et.
      * destruct (cardClick_state env card p q c Ef Et Ec) as (S & L & _).
        unfold mirrored. rewrite L, S in *. split.
        -- now apply restore_after_save; [apply toggle_NoDup | |].
        -- now apply toggle_NoDup.
      * unfold cardClick in Ec. rewrite Ef, Et in Ec. injection Ec as <-.
        now split.
    + unfold cardClick in Ec. rewrite Ef in Ec. injection Ec as <-. now split.
  - injection Hrun as <-. unfold removeClick in *. cbn [fst snd] in *.
    destruct (truthy i); cbn [negb fst] in *; [|now split].
    unfold mirrored. cbn in *. split.
    + now apply restore_after_save; [apply Set_delete_NoDup | |].
    + now apply Set_delete_NoDup.
  - injection Hrun as <-. unfold clearAllClick in *. cbn [fst snd] in *.
    unfold mirrored. cbn in *. split; [|constructor].
    apply restore_after_save; [constructor | assumption | assumption].
Qed.

Lemma selection_actions_are_persisted_witness :
  exists qs,
    run_selection_op env0 (page_cards, summary0) (OpCardClick 2) = Normal qs
    /\ selectedProductIds (fst qs) = ["t-7"]
    /\ mirrored (fst qs).
Proof.
  eexists. split; [vm_compute; reflexivity|]. split; [reflexivity|].
  eapply (selection_actions_are_persisted env0 (OpCardClick 2)
            (page_cards, summary0) _).
  - reflexivity.
  - constructor.
  - reflexivity.
  - vm_compute. reflexivity.
  - apply Nat.leb_le. reflexivity.
Defined.

(** ** Removing from the summary and clearing it *)

Lemma unselect_first_core (i : string) (cs : list Card) :
  map card_pid (unselect_first i cs) = map card_pid cs
  /\ map card_elem (unselect_first i cs) = map card_elem cs.
Proof.
  induction cs as [|c cs [IH1 IH2]]; simpl; [auto|].
  destruct (card_pid c =? i); simpl; [auto|]. now rewrite IH1, IH2.
Qed.

Lemma unselect_first_synced (i : string) (sel : SelSet) (cs : list Card) :
  NoDup (map card_pid cs) ->
  synced sel cs ->
  synced (Set_delete sel i) (unselect_first i cs).
Proof.
  unfold synced. induction cs as [|c cs IH]; simpl; intros Hnd Hs;
    [constructor|].
  inversion Hnd as [|? ? Hc Hcs]; subst.
  inversion Hs as [|? ? Hh Ht]; subst.
  destruct (String.eqb_spec (card_pid c) i) as [Heq|Hne].
  - constructor.
    + simpl. rewrite inb_delete, Heq, String.eqb_refl. reflexivity.
    + apply Forall_forall. intros d Hd.
      rewrite Forall_forall in Ht. rewrite (Ht d Hd), inb_delete.
      assert (Hdi : (i =? card_pid d) = false).
      { apply String.eqb_neq. intros E. apply Hc. rewrite Heq, E.
        now apply in_map. }
      now rewrite Hdi.
  - constructor; [|now apply IH].
    rewrite Hh, inb_delete.
    assert (Hci : (i =? card_pid c) = false)
      by (apply String.eqb_neq; congruence).
    now rewrite Hci.
Qed.

(** X5.  A click on the remove button of an identifier takes that
    identifier out of the selection and leaves every other membership as it
    was; the summary is drawn again without it, and, when the cards have
    distinct identifiers, no card of that identifier is left drawn
    selected. *)
Theorem remove_click_drops_the_identifier (i : string) (p : Page) (s : Summary) :
  truthy i = true ->
  let qs := removeClick i (p, s) in
  Set_has (selectedProductIds (fst qs)) (IdStr i) = false
  /\ (forall x, x <> IdStr i ->
        Set_has (selectedProductIds (fst qs)) x = Set_has (selectedProductIds p) x)
  /\ snd qs = renderSelectedProductsList (allProductsCache p)
                (Set_delete (selectedProductIds p) i) s
  /\ (forall items, selectedProductsList (snd qs) = Some (SummaryItems items) ->
        selectedProductsList s <> None -> ~ In i (map item_id items))
  /\ (NoDup (map card_pid (cards_of (productsContainer p))) ->
      forall c, In c (cards_of (productsContainer (fst qs))) ->
                card_pid c = i -> card_selected c = false).
Proof.
  intros Ht qs. subst qs. unfold removeClick. rewrite Ht. cbn.
  split; [rewrite inb_delete, String.eqb_refl; reflexivity|].
  split.
  { intros [n|y] Hx; [reflexivity|]. simpl. rewrite inb_delete.
    assert (H : (i =? y) = false)
      by (apply String.eqb_neq; intros ->; now apply Hx).
    now rewrite H. }
  split; [reflexivity|].
  split.
  { intros items Hitems Hl. unfold renderSelectedProductsList in Hitems.
    destruct (selectedProductsList s); [|congruence].
    destruct (Set_delete (selectedProductIds p) i) as [|j sel'] eqn:Ed;
      [discriminate|].
    injection Hitems as <-.
    assert (Hids : forall ps l, map item_id (map (summary_item ps) l) = l)
      by (intros; rewrite map_map; apply map_id).
    match goal with
    | |- ~ In i ?l =>
        replace l with (j :: sel') by (symmetry; exact (Hids _ (j :: sel')))
    end.
    rewrite <- Ed. intros Hin. apply filter_In in Hin.
    destruct Hin as [_ Hin]. now rewrite String.eqb_refl in Hin. }
  intros Hnd c Hc Hpid.
  destruct (productsContainer p) as [[| |cs]|]; simpl in *; try contradiction.
  clear - Hnd Hc Hpid. induction cs as [|d cs IH]; simpl in *; [contradiction|].
  inversion Hnd as [|? ? Hd Hcs]; subst.
  destruct (String.eqb_spec (card_pid d) (card_pid c)) as [Heq|Hne].
  - destruct Hc as [<-|Hc]; [reflexivity|].
    exfalso. apply Hd. rewrite Heq. now apply in_map.
  - destruct Hc as [<-|Hc]; [congruence | now apply IH].
Qed.

Lemma remove_click_drops_the_identifier_witness :
  Set_has
    (selectedProductIds
       (fst (removeClick "1" (set_selectedProductIds ["1"; "t-7"] page_cards,
                              summary0))))
    (IdStr "1") = false.
Proof.
  exact (proj1 (remove_click_drops_the_identifier "1"
                  (set_selectedProductIds ["1"; "t-7"] page_cards) summary0
                  eq_refl)).
Defined.


(** ** Cards are drawn as the selection says *)

Lemma cardClick_synced (env : Env) (card : nat) (p q : Page) :
  in_sync p -> distinct_cards p ->
  cardClick env card p = Normal q ->
  in_sync q /\ distinct_cards q.
Proof.
  intros Hs Hd Hc.
  destruct (find_card card (productsContainer p)) as [c|] eqn:Ef.
  2:{ unfold cardClick in Hc. rewrite Ef in Hc. injection Hc as <-. now split. }
  destruct (truthy (card_pid c)) eqn:Et.
  2:{ unfold cardClick in Hc. rewrite Ef, Et in Hc. injection Hc as <-.
      now split. }
  destruct (cardClick_state env card p q c Ef Et Hc) as (S & _ & C).
  apply in_sync_synced in Hs. apply distinct_cards_of in Hd.
  destruct Hd as [Hp He].
  assert (Hin : In c (cards_of (productsContainer p))
                /\ card_elem c = card).
  { unfold find_card in Ef.
    destruct (productsContainer p) as [[| |cs]|]; try discriminate.
    apply find_some in Ef. destruct Ef as [Hin Hel].
    apply Nat.eqb_eq in Hel. now split. }
  destruct Hin as [Hin Hel].
  split.
  - apply in_sync_synced. rewrite S. apply (synced_core _ _ _ C).
    unfold synced in *. rewrite Forall_forall in *. intros d' Hd'.
    apply in_map_iff in Hd'. destruct Hd' as (d & <- & Hd).
    destruct (Nat.eqb_spec (card_elem d) card) as [Hde|Hde].
    + assert (d = c)
        by (apply (NoDup_map_same card_elem _ d c He Hd Hin); congruence).
      subst d. cbn. now rewrite inb_toggle, String.eqb_refl.
    + rewrite (Hs d Hd), inb_toggle.
      destruct (String.eqb_spec (card_pid d) (card_pid c)) as [Hpc|];
        [|reflexivity].
      exfalso. apply Hde. rewrite <- Hel. f_equal.
      now apply (NoDup_map_same card_pid _ d c Hp Hd Hin).
  - apply distinct_cards_of. apply core_pids in C. destruct C as [C1 C2].
    rewrite C1, C2, !map_map.
    erewrite (map_ext _ card_pid), (map_ext _ card_elem); [now split | |];
      intros d; destruct (card_elem d =? card)%nat; reflexivity.
Qed.

(** X7.  On a page whose cards are distinct elements with distinct
    identifiers, drawn selected exactly when their identifier is in the
    selection, every sequence of card clicks, removals from the summary
    and "Clear all" that returns leaves every card drawn selected exactly
    when its identifier is in the selection. *)
Theorem selection_actions_keep_cards_in_step
  (env : Env) (ops : list SelectionOp) (ps qs : Page * Summary) :
  in_sync (fst ps) -> distinct_cards (fst ps) ->
  run_selection_ops env ps ops = Normal qs ->
  in_sync (fst qs) /\ distinct_cards (fst qs).
Proof.
  revert ps. induction ops as [|op ops IH]; intros ps Hs Hd; simpl.
  - intros [= <-]. now split.
  - destruct (run_selection_op env ps op) as [ps'|e] eqn:E; [|discriminate].
    simpl. apply IH.
    + destruct ps as [p s]. destruct op as [card|i|]; simpl in E.
      * destruct (cardClick env card p) as [q|] eqn:Ec; [|discriminate].
        injection E as <-. apply (cardClick_synced env card p q Hs Hd Ec).
      * injection E as <-. unfold removeClick. cbn [fst].
        destruct (truthy i); cbn [negb fst]; [|assumption].
        apply in_sync_synced. apply in_sync_synced in Hs.
        apply distinct_cards_of in Hd. cbn in *.
        destruct (productsContainer p) as [[| |cs]|]; cbn in *;
          try constructor.
        now apply unselect_first_synced.
      * injection E as <-. unfold clearAllClick. cbn [fst].
        apply in_sync_synced. cbn.
        destruct (productsContainer p) as [[| |cs]|]; cbn; try constructor.
        unfold synced. apply Forall_forall. intros c Hc.
        apply in_map_iff in Hc. destruct Hc as (d & <- & _).
        destruct (card_selected d) eqn:Ed; [reflexivity | exact Ed].
    + destruct ps as [p s]. destruct op as [card|i|]; simpl in E.
      * destruct (cardClick env card p) as [q|] eqn:Ec; [|discriminate].
        injection E as <-. apply (cardClick_synced env card p q Hs Hd Ec).
      * injection E as <-. unfold removeClick. cbn [fst].
        destruct (truthy i); cbn [negb fst]; [|assumption].
        apply distinct_cards_of. apply distinct_cards_of in Hd. cbn in *.
        destruct (productsContainer p) as [[| |cs]|]; cbn in *; try assumption.
        destruct (unselect_first_core i cs) as [E1 E2]. now rewrite E1, E2.
      * injection E as <-. unfold clearAllClick. cbn [fst].
        apply distinct_cards_of. apply distinct_cards_of in Hd. cbn in *.
        destruct (productsContainer p) as [[| |cs]|]; cbn in *; try assumption.
        rewrite !map_map.
        erewrite (map_ext _ card_pid), (map_ext _ card_elem); [exact Hd | |];
          intros d; destruct (card_selected d); reflexivity.
Qed.

Lemma selection_actions_keep_cards_in_step_witness :
  exists qs,
    run_selection_ops env0 (page_cards, summary0)
      [OpCardClick 0; OpCardClick 2; OpRemove "1"] = Normal qs
    /\ selectedProductIds (fst qs) = ["t-7"]
    /\ in_sync (fst qs).
Proof.
  eexists. split; [vm_compute; reflexivity|]. split; [reflexivity|].
  eapply (selection_actions_keep_cards_in_step env0
            [OpCardClick 0; OpCardClick 2; OpRemove "1"] (page_cards, summary0)).
  - intros cs [= <-] c Hc. simpl in Hc.
    destruct Hc as [<-|[<-|[<-|[]]]]; reflexivity.
  - intros cs [= <-]. split; repeat constructor; simpl; intuition discriminate.
  - vm_compute. reflexivity.
Defined.

(** ** Rendering the cards *)






(** ** The overlay and the Escape key *)

Lemma closeModal_ok (cl : Closure) (p : Page) :
  overlay_ok p -> overlay_ok (closeModal cl p).
Proof.
  intros (H1 & H2 & H3). unfold overlay_ok. cbn [closeModal].
  change (overlays (closeModal cl p))
    with (remove_overlay (cl_overlay cl) (overlays p)).
  change (keydown (closeModal cl p))
    with (filter (fun k => negb (cl_overlay k =? cl_overlay cl)%nat) (keydown p)).
  change (nextElem (closeModal cl p)) with (nextElem p).
  split; [|split].
  - etransitivity; [apply remove_overlay_length | assumption].
  - intros o Ho. apply filter_In in Ho. destruct Ho as [Ho Hne].
    destruct (H2 o Ho) as (c & Hc & He & Hin).
    exists c. repeat split; try assumption.
    apply filter_In. split; [assumption|]. now rewrite He.
  - intros c Hc. apply filter_In in Hc. now apply H3.
Qed.

Lemma fold_closeModal_ok (ks : list Closure) (p : Page) :
  overlay_ok p -> overlay_ok (fold_left (fun q cl => closeModal cl q) ks p).
Proof.
  revert p. induction ks as [|k ks IH]; intros p H; simpl; [assumption|].
  apply IH. now apply closeModal_ok.
Qed.

Lemma run_op_ok (op : OverlayOp) (p q : Page) :
  overlay_ok p -> run_op p op = Normal q -> overlay_ok q.
Proof.
  intros Hok. destruct op as [product card|elem| |]; simpl.
  - intros H. destruct Hok as (H1 & H2 & H3).
    assert (Hn : nextElem q = S (nextElem p)).
    { revert H. unfold showProductModal.
      destruct (clearHighlights p) as [p1|] eqn:E; [|discriminate].
      apply clearHighlights_overlays in E. destruct E as (_ & _ & En).
      simpl. intros [= <-]. simpl. destruct (overlays p1); simpl; now rewrite En. }
    apply showProductModal_effect in H. destruct H as [Ho Hk].
    assert (Hone : overlays q
                   = [mkOverlay (nextElem p) product
                        (Some (mkClosure (nextElem p) card))]).
    { rewrite Ho. destruct (overlays p) as [|o [|o' os]]; simpl in *;
        [reflexivity | | lia]. now rewrite Nat.eqb_refl. }
    unfold overlay_ok. rewrite Hone, Hk, Hn. split; [simpl; lia|]. split.
    + intros o [<-|[]]. eexists. split; [reflexivity|]. split; [reflexivity|].
      apply in_or_app. right. now left.
    + intros cl Hcl. apply in_app_or in Hcl. destruct Hcl as [Hcl|[<-|[]]].
      * apply H3 in Hcl. lia.
      * simpl. lia.
  - intros [= <-]. unfold clickClose.
    destruct (find _ (overlays p)) as [o|]; [|assumption].
    destruct (ov_close o); [now apply closeModal_ok | assumption].
  - intros [= <-]. now apply fold_closeModal_ok.
  - intros [= <-]. unfold closeExistingModal.
    destruct (overlays p) as [|o os] eqn:Eo; [assumption|].
    destruct (ov_close o) as [cl|] eqn:Ec; [now apply closeModal_ok|].
    destruct Hok as (_ & H2 & _). rewrite Eo in H2.
    destruct (H2 o (or_introl eq_refl)) as (c & Hc & _). congruence.
Qed.

Lemma filter_filter_and {A} (f g : A -> bool) (l : list A) :
  filter f (filter g l) = filter (fun x => g x && f x) l.
Proof.
  induction l as [|x l IH]; simpl; [reflexivity|].
  destruct (g x); simpl; [|exact IH]. destruct (f x); now rewrite IH.
Qed.

Lemma fold_closeModal_state (ks : list Closure) (p : Page) :
  keydown (fold_left (fun q cl => closeModal cl q) ks p)
  = filter (fun k => forallb (fun cl => negb (cl_overlay k =? cl_overlay cl)%nat) ks)
      (keydown p)
  /\ overlays (fold_left (fun q cl => closeModal cl q) ks p)
     = filter (fun o => forallb (fun cl => negb (ov_elem o =? cl_overlay cl)%nat) ks)
         (overlays p).
Proof.
  revert p. induction ks as [|k ks IH]; intros p; simpl.
  - split; symmetry; apply forallb_filter_id; apply forallb_forall;
      intros; reflexivity.
  - destruct (IH (closeModal k p)) as [I1 I2]. rewrite I1, I2. split.
    + change (keydown (closeModal k p))
        with (filter (fun c => negb (cl_overlay c =? cl_overlay k)%nat) (keydown p)).
      apply filter_filter_and.
    + change (overlays (closeModal k p))
        with (filter (fun o => negb (ov_elem o =? cl_overlay k)%nat) (overlays p)).
      apply filter_filter_and.
Qed.

Lemma filter_nothing {A} (f : A -> bool) (l : list A) :
  (forall x, In x l -> f x = false) -> filter f l = [].
Proof.
  induction l as [|x l IH]; intros H; simpl; [reflexivity|].
  rewrite (H x (or_introl eq_refl)). apply IH. intros y Hy. apply H. now right.
Qed.

(** X9.  From a page whose overlays are well formed (a page with no
    overlay and no key handler is one), after every sequence of openings,
    closings, Escape keys and calls of [closeExistingModal] that returns,
    at most one overlay is attached, it has its own Escape handler
    registered on the document, and one press of Escape leaves no overlay
    attached and no key handler registered, also not one left over from a
    replaced overlay. *)
Theorem escape_closes_everything (ops : list OverlayOp) (p q : Page) :
  overlay_ok p ->
  run_ops p ops = Normal q ->
  overlay_ok q
  /\ overlays (pressEscape q) = []
  /\ keydown (pressEscape q) = [].
Proof.
  intros Hok Hrun.
  assert (Hq : overlay_ok q).
  { revert p Hok Hrun. induction ops as [|op ops IH]; intros p Hok; simpl.
    - now intros [= <-].
    - destruct (run_op p op) as [p'|] eqn:E; [|discriminate]. simpl.
      apply IH. now apply (run_op_ok op p). }
  split; [assumption|].
  unfold pressEscape.
  destruct (fold_closeModal_state (keydown q) q) as [Hk Ho].
  rewrite Hk, Ho. destruct Hq as (_ & H2 & _). split.
  - apply filter_nothing. intros o Hin.
    destruct (H2 o Hin) as (cl & _ & He & Hcl).
    apply not_true_is_false. intros Hall.
    rewrite forallb_forall in Hall. specialize (Hall cl Hcl).
    now rewrite He, Nat.eqb_refl in Hall.
  - apply filter_nothing. intros k Hin.
    apply not_true_is_false. intros Hall.
    rewrite forallb_forall in Hall. specialize (Hall k Hin).
    now rewrite Nat.eqb_refl in Hall.
Qed.

Lemma escape_closes_everything_witness :
  exists q,
    run_ops page_cards [OpOpen cleanserA 0; OpOpen serumB 1] = Normal q
    /\ List.length (keydown q) = 2
    /\ keydown (pressEscape q) = [].
Proof.
  eexists. split; [vm_compute; reflexivity|]. split; [reflexivity|].
  eapply (escape_closes_everything [OpOpen cleanserA 0; OpOpen serumB 1]
            page_cards).
  - repeat split; simpl; try lia; intros ? [].
  - vm_compute. reflexivity.
Defined.

(** ** What [applyFilters] shows *)


Lemma applyFilters_reaches_render (env : Env) (p : Page) (catalog : list Product) :
  productsContainer p <> None ->
  allProductsCache p = Some catalog
    \/ (allProductsCache p = None /\ fetchProducts env = Normal (Some catalog)) ->
  exists p3,
    productsContainer p3 <> None
    /\ allProductsCache p3 = Some catalog
    /\ categoryFilter p3 = categoryFilter p
    /\ searchInput p3 = searchInput p
    /\ selectedProductIds p3 = selectedProductIds p
    /\ applyFilters env p =
       let selectedCategory := selected_category (categoryFilter p) in
       let q := search_query (searchInput p) in
       if negb (truthy selectedCategory) && negb (truthy q)
       then Normal (set_productsContainer (Some ViewPlaceholder) p3)
       else match search_filter q (category_filter selectedCategory catalog) with
            | [] => Normal (set_productsContainer (Some ViewNoMatches) p3)
            | _ =>
                displayProducts
                  (search_filter q (category_filter selectedCategory catalog)) p3
            end.
Proof.
  intros Hc Hload. unfold applyFilters.
  destruct (closeExistingModal_fields p) as (F1 & F2 & F3 & F4).
  assert (F5 : selectedProductIds (closeExistingModal p) = selectedProductIds p).
  { unfold closeExistingModal. destruct (overlays p) as [|o os]; [reflexivity|].
    destruct (ov_close o); reflexivity. }
  destruct (clearHighlights_fields (closeExistingModal p) (F4 Hc))
    as (p2 & E2 & G1 & G2 & G3 & G4).
  assert (G5 : selectedProductIds p2 = selectedProductIds (closeExistingModal p)).
  { revert E2. unfold clearHighlights.
    destruct (productsContainer (closeExistingModal p)) as [[| |cs]|];
      try discriminate; intros [= <-]; reflexivity. }
  rewrite E2. cbn [bind]. unfold loadProducts. rewrite G3, F3.
  destruct Hload as [Hl | [Hl Hf]]; rewrite Hl.
  - cbn [bind fst snd]. exists p2. rewrite G1, G2, G5, F1, F2, F5.
    repeat split; try assumption; try congruence.
    destruct (productsContainer p2); [reflexivity | congruence].
  - rewrite Hf. cbn [bind fst snd].
    exists (set_allProductsCache (Some catalog) p2).
    change (categoryFilter (set_allProductsCache (Some catalog) p2))
      with (categoryFilter p2).
    change (searchInput (set_allProductsCache (Some catalog) p2))
      with (searchInput p2).
    change (productsContainer (set_allProductsCache (Some catalog) p2))
      with (productsContainer p2).
    change (selectedProductIds (set_allProductsCache (Some catalog) p2))
      with (selectedProductIds p2).
    rewrite G1, G2, G5, F1, F2, F5.
    repeat split; try assumption.
    destruct (productsContainer p2); [reflexivity | congruence].
Qed.



Lemma render_cards_unhighlighted (sel : SelSet) (next : nat)
  (products : list Product) (c : Card) :
  In c (render_cards sel next products) -> card_highlighted c = false.
Proof.
  revert next. induction products as [|x l IH]; intros n Hc; simpl in Hc;
    [contradiction|].
  destruct Hc as [<-|Hc]; [reflexivity | now apply (IH (S n))].
Qed.

Lemma applyFilters_overlays (env : Env) (p r : Page) :
  applyFilters env p = Normal r ->
  overlays r = overlays (closeExistingModal p)
  /\ keydown r = keydown (closeExistingModal p)
  /\ (forall c, In c (cards_of (productsContainer r)) ->
                card_highlighted c = false).
Proof.
  unfold applyFilters.
  destruct (clearHighlights (closeExistingModal p)) as [p2|] eqn:E2;
    [|discriminate].
  assert (Hc2 : productsContainer p2 <> None).
  { revert E2. unfold clearHighlights.
    destruct (productsContainer (closeExistingModal p)) as [[| |cs]|] eqn:Ec;
      try discriminate; intros [= <-]; simpl; congruence. }
  apply clearHighlights_overlays in E2. destruct E2 as (Ho & Hk & _).
  cbn [bind]. unfold loadProducts.
  assert (Hfin : forall p3 products,
            overlays p3 = overlays p2 -> keydown p3 = keydown p2 ->
            productsContainer p3 = productsContainer p2 ->
            match productsContainer p3 with
            | None => Normal p3
            | Some _ =>
                if negb (truthy (selected_category (categoryFilter p3)))
                   && negb (truthy (search_query (searchInput p3)))
                then Normal (set_productsContainer (Some ViewPlaceholder) p3)
                else
                  match search_filter (search_query (searchInput p3))
                          (category_filter (selected_category (categoryFilter p3))
                             products) with
                  | [] => Normal (set_productsContainer (Some ViewNoMatches) p3)
                  | _ :: _ =>
                      displayProducts
                        (search_filter (search_query (searchInput p3))
                           (category_filter
                              (selected_category (categoryFilter p3)) products))
                        p3
                  end
            end = Normal r ->
            overlays r = overlays p2 /\ keydown r = keydown p2
            /\ (forall c, In c (cards_of (productsContainer r)) ->
                          card_highlighted c = false)).
  { intros p3 products E1 E3 E4. unfold displayProducts. rewrite E4.
    destruct (productsContainer p2) as [v|]; [|congruence].
    destruct (negb _ && negb _).
    - intros [= <-]. cbn. rewrite E1, E3. repeat split. intros c [].
    - destruct (search_filter _ _) as [|m ms].
      + intros [= <-]. cbn. rewrite E1, E3. repeat split. intros c [].
      + intros [= <-].
        cbn [overlays keydown productsContainer set_nextElem
             set_productsContainer cards_of].
        rewrite E1, E3. repeat split.
        intros c Hc.
        exact (render_cards_unhighlighted (selectedProductIds p3) (nextElem p3)
                 (m :: ms) c Hc). }
  destruct (allProductsCache p2) as [ps|]; cbn [bind fst snd].
  - intros H. apply Hfin in H; try reflexivity. now rewrite Ho, Hk in H.
  - destruct (fetchProducts env) as [[ps|]|e]; cbn [bind fst snd];
      try discriminate.
    intros H. apply Hfin in H; try reflexivity. now rewrite Ho, Hk in H.
Qed.

(** X11.  On a page whose overlay, if any, was opened by
    [showProductModal], a call of [applyFilters] that returns leaves no
    overlay attached, has taken the Escape handler of the overlay it closed
    off the document, and leaves no card highlighted. *)
Theorem applyFilters_closes_the_overlay (env : Env) (p r : Page) :
  overlay_ok p ->
  applyFilters env p = Normal r ->
  overlays r = []
  /\ (forall o cl, In o (overlays p) -> ov_close o = Some cl ->
                   ~ In cl (keydown r))
  /\ (forall c, In c (cards_of (productsContainer r)) ->
                card_highlighted c = false).
Proof.
  intros (H1 & H2 & _) Hr. apply applyFilters_overlays in Hr.
  destruct Hr as (Ho & Hk & Hh). rewrite Ho, Hk.
  split; [|split; [|exact Hh]].
  - unfold closeExistingModal.
    destruct (overlays p) as [|o [|o' os]] eqn:Eo;
      [exact Eo | | simpl in H1; lia].
    destruct (H2 o (or_introl eq_refl)) as (cl & Hc & He & _). rewrite Hc.
    rewrite closeModal_overlays, Eo, He. simpl. now rewrite Nat.eqb_refl.
  - intros o cl Hin Hcl. unfold closeExistingModal.
    destruct (overlays p) as [|o1 [|o' os]] eqn:Eo;
      [contradiction | | simpl in H1; lia].
    destruct Hin as [->|[]]. rewrite Hcl. simpl. intros Hf.
    apply filter_In in Hf. destruct Hf as [_ Hf].
    now rewrite Nat.eqb_refl in Hf.
Qed.

Lemma applyFilters_closes_the_overlay_witness :
  List.length (overlays page_open) = 1
  /\ exists r, applyFilters env0 page_open = Normal r /\ overlays r = [].
Proof.
  split; [reflexivity|].
  eexists. split; [vm_compute; reflexivity|].
  apply (applyFilters_closes_the_overlay env0 page_open).
  - repeat split.
    + simpl. lia.
    + intros o [<-|[]]. eexists. repeat split. now left.
    + intros cl [<-|[]]. simpl. lia.
  - vm_compute. reflexivity.
Defined.

(** ** The catalog is fetched once *)

(** X12.  Once [loadProducts] has returned a catalog, the page holds it in
    its cache and every later call returns the same catalog and leaves the
    page as it is, whatever the network would now answer.  A catalog
    returned while the cache was empty is the one the fetch gave. *)
Theorem loadProducts_is_cached (env : Env) (p q : Page) (ps : list Product) :
  loadProducts env p = Normal (Some ps, q) ->
  allProductsCache q = Some ps
  /\ (forall env', loadProducts env' q = Normal (Some ps, q))
  /\ (allProductsCache p = None -> fetchProducts env = Normal (Some ps)).
Proof.
  unfold loadProducts. destruct (allProductsCache p) as [c|] eqn:Ec.
  - intros [= -> <-]. rewrite Ec. repeat split. discriminate.
  - destruct (fetchProducts env) as [[c|]|e]; cbn [bind]; try discriminate.
    intros [= -> <-]. repeat split.
Qed.

Lemma loadProducts_is_cached_witness :
  exists q,
    loadProducts env0 page0 = Normal (Some catalog0, q)
    /\ loadProducts (mkEnv (Throw (TypeError "Failed to fetch")) offline) q
       = Normal (Some catalog0, q).
Proof.
  eexists. split; [reflexivity|].
  eapply (loadProducts_is_cached env0 page0). reflexivity.
Defined.

Lemma loadProducts_failure (env : Env) (p : Page) (e : JsError) :
  loadProducts env p = Throw e ->
  allProductsCache p = None /\ fetchProducts env = Throw e.
Proof.
  unfold loadProducts. destruct (allProductsCache p); [discriminate|].
  destruct (fetchProducts env) as [[c|]|e']; cbn [bind]; try discriminate.
  intros [= ->]. now split.
Qed.

(** ** Restoring and saving at the edges *)





Lemma assoc_set_other {A} (k k' : string) (v : A) (l : list (string * A)) :
  k' <> k -> assoc k' (assoc_set k v l) = assoc k' l.
Proof.
  intros Hne. induction l as [|[j w] l IH]; simpl.
  - apply String.eqb_neq in Hne. now rewrite Hne.
  - destruct (String.eqb_spec k j) as [->|Hkj]; simpl.
    + apply String.eqb_neq in Hne. now rewrite Hne.
    + destruct (k' =? j); [reflexivity | exact IH].
Qed.

(** X14.  Saving the selection is best effort and touches nothing else:
    with the storage disabled, or a quota smaller than the JSON text, the
    storage is left exactly as it was and nothing is thrown; in every case
    the items under other keys, the quota and the enabled state are as
    before. *)
Theorem save_is_best_effort (s : SelSet) (st : LocalStorage) :
  (ls_enabled st = false \/ ls_quota st < String.length (JSON_stringify s) ->
   saveSelectedToStorage s st = st)
  /\ (forall k, k <> STORAGE_KEY ->
        assoc k (ls_items (saveSelectedToStorage s st)) = assoc k (ls_items st))
  /\ ls_enabled (saveSelectedToStorage s st) = ls_enabled st
  /\ ls_quota (saveSelectedToStorage s st) = ls_quota st.
Proof.
  split; [|split; [|apply saveSelectedToStorage_settings]].
  - unfold saveSelectedToStorage, setItem. intros [He|Hq].
    + now rewrite He.
    + destruct (ls_enabled st); cbn [negb]; [|reflexivity].
      apply Nat.leb_gt in Hq. now rewrite Hq.
  - intros k Hk. unfold saveSelectedToStorage, setItem.
    destruct (ls_enabled st); cbn [negb]; [|reflexivity].
    destruct (String.length (JSON_stringify s) <=? ls_quota st)%nat;
      [|reflexivity].
    cbn [ls_items]. now apply assoc_set_other.
Qed.

(** ** The materialized selection *)

(** X15.  The materialized selection has at most one record per selected
    identifier, and exactly one when every identifier resolves; each record
    is the data of a catalog product whose identifier, as a string, is a
    selected identifier; without a loaded catalog it is empty. *)
Theorem materialized_selection_comes_from_the_catalog
  (cache : option (list Product)) (sel : SelSet) :
  let products := match cache with Some ps => ps | None => [] end in
  List.length (getSelectedProductsData cache sel) <= List.length sel
  /\ (forall sd, In sd (getSelectedProductsData cache sel) ->
        exists i pr, In i sel /\ In pr products
                     /\ String_of_id (product_pid pr) = i
                     /\ sd = selected_data pr)
  /\ ((forall i, In i sel -> find_selected products i <> None) ->
      List.length (getSelectedProductsData cache sel) = List.length sel)
  /\ (cache = None -> getSelectedProductsData cache sel = []).
Proof.
  intros products. rewrite getSelectedProductsData_spec. fold products.
  split; [|split; [|split]].
  - induction sel as [|i sel IH]; simpl; [lia|].
    rewrite length_app. destruct (find_selected products i); simpl; lia.
  - intros sd Hsd. apply in_flat_map in Hsd. destruct Hsd as (i & Hi & Hsd).
    destruct (find_selected products i) as [pr|] eqn:E; [|contradiction].
    destruct Hsd as [<-|[]]. apply find_some in E. destruct E as [Hin He].
    apply String.eqb_eq in He. exists i, pr. auto.
  - intros H. induction sel as [|i sel IH]; simpl; [reflexivity|].
    rewrite length_app, IH by (intros j Hj; apply H; now right).
    destruct (find_selected products i) eqn:E; [reflexivity|].
    exfalso. now apply (H i (or_introl eq_refl)).
  - intros ->. subst products. induction sel as [|i sel IH]; simpl; auto.
Qed.

(** ** Categories that a plain object inherits *)

Lemma assoc_Some_In {A} (k : string) (l : list (string * A)) (v : A) :
  assoc k l = Some v -> In k (map fst l).
Proof.
  induction l as [|[j w] l IH]; simpl; [discriminate|].
  destruct (String.eqb_spec k j) as [->|]; [now left|].
  intros H. right. now apply IH.
Qed.

(** Of the names a plain object inherits, the two written in lower case. *)
Lemma lower_case_inherited (s : string) :
  inherited (toLowerCase s) = true ->
  toLowerCase s = "constructor" \/ toLowerCase s = "__proto__".
Proof.
  unfold inherited.
  destruct (assoc (toLowerCase s) objectPrototype) as [len|] eqn:E;
    [|discriminate].
  intros _. apply assoc_Some_In in E.
  pose proof (toLowerCase_idempotent s) as Hi.
  simpl in E.
  repeat (destruct E as [E|E];
          [ first [ left; now symmetry | right; now symmetry
                  | rewrite <- E in Hi; discriminate Hi ] | ]).
  contradiction.
Qed.

Lemma fill_buckets_app (a b : list SelectedData) (b0 : Buckets) :
  fill_buckets (a ++ b) b0 = (b1 <- fill_buckets a b0 ;; fill_buckets b b1).
Proof.
  revert b0. induction a as [|x a IH]; intros b0; simpl; [reflexivity|].
  destruct (bucket_push b0 x); simpl; [apply IH | reflexivity].
Qed.

Lemma first_inherited (products : list SelectedData) :
  (exists p, In p products /\ inherited (normCategory p) = true) ->
  exists done p rest,
    products = (done ++ p :: rest)%list
    /\ inherited (normCategory p) = true
    /\ (forall d, In d done -> inherited (normCategory d) = false).
Proof.
  induction products as [|x ps IH]; intros (p & Hin & Hp); [contradiction|].
  destruct (inherited (normCategory x)) eqn:Ex.
  - exists [], x, ps. repeat split; [assumption | intros d []].
  - destruct Hin as [->|Hin]; [congruence|].
    destruct IH as (done & p' & rest & -> & Hp' & Hd); [now exists p|].
    exists (x :: done), p', rest. repeat split; [assumption|].
    intros d [<-|Hd']; [assumption | now apply Hd].
Qed.

Lemma buildLocalRoutine_throws (products : list SelectedData) :
  (exists p, In p products /\ inherited (normCategory p) = true) ->
  buildLocalRoutine products
  = Throw (TypeError "buckets[cat].push is not a function").
Proof.
  intros H. apply first_inherited in H.
  destruct H as (done & p & rest & -> & Hp & Hd).
  unfold buildLocalRoutine. rewrite fill_buckets_app.
  change (@nil (string * list SelectedData)) with (buckets_of []).
  rewrite (fill_buckets_grouped done [] Hd). cbn [bind app fill_buckets].
  assert (Hpush : bucket_push (buckets_of done) p
                  = Throw (TypeError "buckets[cat].push is not a function")).
  { unfold bucket_push, bucket_get.
    assert (Ha : assoc (normCategory p) (buckets_of done) = None).
    { unfold buckets_of. rewrite assoc_tabulate, inb_firsts.
      destruct (inb (normCategory p) (map normCategory done)) eqn:E;
        [|reflexivity].
      apply inb_In in E. apply in_map_iff in E. destruct E as (d & Ed & Hin).
      apply Hd in Hin. congruence. }
    rewrite Ha. unfold inherited in Hp.
    destruct (assoc (normCategory p) objectPrototype); [|discriminate].
    now rewrite Ha. }
  now rewrite Hpush.
Qed.

(** X16.  For selected products whose categories are ASCII text,
    [buildLocalRoutine] throws exactly when the category of some selected
    product, trimmed and lower-cased, is [constructor] or [__proto__]; what
    it throws is the TypeError of calling [push] on the value the bucket
    object inherits under that name. *)
Theorem local_routine_throws_exactly (products : list SelectedData) :
  (forall p, In p products -> ascii_category p = true) ->
  ((exists e, buildLocalRoutine products = Throw e)
   <-> (exists p, In p products
                  /\ (normCategory p = "constructor"
                      \/ normCategory p = "__proto__")))
  /\ (forall e, buildLocalRoutine products = Throw e ->
        e = TypeError "buckets[cat].push is not a function").
Proof.
  intros _.
  assert (Hthrows : forall e, buildLocalRoutine products = Throw e ->
            exists p, In p products /\ inherited (normCategory p) = true).
  { intros e He.
    destruct (existsb (fun p => inherited (normCategory p)) products) eqn:Ex.
    - apply existsb_exists in Ex. destruct Ex as (p & Hin & Hp). now exists p.
    - rewrite buildLocalRoutine_steps in He; [discriminate|].
      intros p Hp. apply not_true_is_false. intros Hi.
      assert (Ht : existsb (fun p => inherited (normCategory p)) products = true)
        by (apply existsb_exists; now exists p).
      congruence. }
  split.
  2:{ intros e He. destruct (Hthrows e He) as (p & Hin & Hp).
      rewrite buildLocalRoutine_throws in He by (now exists p).
      now injection He as <-. }
  split.
  - intros [e He].
    destruct (existsb (fun p => inherited (normCategory p)) products) eqn:Ex.
    + apply existsb_exists in Ex. destruct Ex as (p & Hin & Hp).
      exists p. split; [assumption|].
      unfold normCategory in *. now apply lower_case_inherited.
    + rewrite buildLocalRoutine_steps in He; [discriminate|].
      intros p Hp. apply not_true_is_false. intros Hi.
      assert (Ht : existsb (fun p => inherited (normCategory p)) products = true)
        by (apply existsb_exists; now exists p).
      congruence.
  - intros (p & Hin & Hp). eexists. apply buildLocalRoutine_throws.
    exists p. split; [assumption|]. destruct Hp as [-> | ->]; reflexivity.
Qed.

(** A category that reads [Constructor], and one that names nothing a
    plain object inherits. *)
Lemma local_routine_throws_exactly_witness :
  buildLocalRoutine [selected "X" " Constructor"]
  = Throw (TypeError "buckets[cat].push is not a function")
  /\ ~ (exists e, buildLocalRoutine [selected "X" "Cleanser"] = Throw e).
Proof.
  split.
  - destruct (local_routine_throws_exactly [selected "X" " Constructor"])
      as [[_ H] He].
    + intros p [<-|[]]. reflexivity.
    + destruct H as [e E].
      * exists (selected "X" " Constructor"). split; [now left | now left].
      * rewrite E. f_equal. now apply He.
  - destruct (local_routine_throws_exactly [selected "X" "Cleanser"])
      as [[H _] _].
    + intros p [<-|[]]. reflexivity.
    + intros Ht. destruct (H Ht) as (p & [<-|[]] & [E|E]); discriminate E.
Defined.

(** ** Routines in local mode *)



(** ** The text of a successful response *)



(** ** The routine runs through the priority list *)

Lemma StronglySorted_app {A} (R : A -> A -> Prop) (l1 l2 : list A) :
  StronglySorted R l1 -> StronglySorted R l2 ->
  (forall a b, In a l1 -> In b l2 -> R a b) ->
  StronglySorted R (l1 ++ l2).
Proof.
  induction l1 as [|x l1 IH]; intros H1 H2 H; simpl; [assumption|].
  inversion H1 as [|? ? Hs Hf]; subst. constructor.
  - apply IH; [assumption | assumption |].
    intros a b Ha Hb. apply H; [now right | assumption].
  - apply Forall_app. split; [assumption|].
    apply Forall_forall. intros b Hb. apply H; [now left | assumption].
Qed.

Lemma StronglySorted_all {A} (R : A -> A -> Prop) (l : list A) :
  (forall a b, In a l -> In b l -> R a b) -> StronglySorted R l.
Proof.
  induction l as [|x l IH]; intros H; constructor.
  - apply IH. intros a b Ha Hb. apply H; now right.
  - apply Forall_forall. intros b Hb. apply H; [now left | now right].
Qed.

Lemma index_of_bound (c : string) (l : list string) :
  index_of c l <= List.length l.
Proof.
  induction l as [|x l IH]; simpl; [lia|]. destruct (c =? x); lia.
Qed.

Lemma index_of_absent (c : string) (l : list string) :
  inb c l = false -> index_of c l = List.length l.
Proof.
  induction l as [|x l IH]; simpl; [reflexivity|].
  rewrite inb_cons. intros H. apply orb_false_elim in H. destruct H as [H1 H2].
  now rewrite H1, IH.
Qed.

Lemma blocks_by_rank (g : string -> SelectedData -> Step)
  (products : list SelectedData) (L : list string) :
  (forall c x, step_cat (g c x) = c) ->
  StronglySorted (fun a b => rank a <= rank b) L ->
  StronglySorted by_rank
    (flat_map (fun c => map (g c) (bucket_of c products)) L).
Proof.
  intros Hg. induction L as [|c L IH]; intros HL; simpl; [constructor|].
  inversion HL as [|? ? Hs Hf]; subst.
  apply StronglySorted_app.
  - apply StronglySorted_all. intros a b Ha Hb.
    apply in_map_iff in Ha. destruct Ha as (x & <- & _).
    apply in_map_iff in Hb. destruct Hb as (y & <- & _).
    unfold by_rank. now rewrite !Hg.
  - now apply IH.
  - intros a b Ha Hb. apply in_map_iff in Ha. destruct Ha as (x & <- & _).
    apply in_flat_map in Hb. destruct Hb as (c' & Hc' & Hb).
    apply in_map_iff in Hb. destruct Hb as (y & <- & _).
    unfold by_rank. rewrite !Hg. rewrite Forall_forall in Hf. now apply Hf.
Qed.

Lemma order_by_rank : StronglySorted (fun a b => rank a <= rank b) order.
Proof.
  unfold order. repeat (constructor; [|repeat constructor; vm_compute; lia]).
  constructor.
Qed.

(** The text of the routine is the formatted [steps] array. *)
Lemma buildLocalRoutine_formats (products : list SelectedData) :
  buildLocalRoutine products
  = (steps <- steps_array products ;; Normal (formatRoutine steps)).
Proof.
  unfold buildLocalRoutine, steps_array.
  destruct (fill_buckets products []) as [b|e]; cbn [bind]; [|reflexivity].
  destruct (ordered_steps order b []) as [sb|e]; cbn [bind]; reflexivity.
Qed.

Lemma steps_array_steps (products : list SelectedData) :
  (forall p, In p products -> inherited (normCategory p) = false) ->
  steps_array products = Normal (routine_steps products).
Proof.
  intros H. unfold steps_array.
  change (@nil (string * list SelectedData)) with (buckets_of []).
  rewrite (fill_buckets_grouped products [] H). cbn [bind app].
  unfold buckets_of at 1.
  rewrite ordered_steps_tabulate.
  - cbn [bind fst snd app]. unfold Object_keys.
    rewrite map_fst_tabulate.
    rewrite remaining_steps_tabulate by apply key_order_In.
    f_equal. unfold routine_steps, priority_part.
    f_equal. apply flat_map_ext. intros c.
    destruct (inb c (firsts (map normCategory products))) eqn:E; [reflexivity|].
    rewrite inb_firsts in E. now rewrite (bucket_of_absent _ _ E).
  - apply order_NoDup.
  - apply order_not_inherited.
  - intros k Hk. apply bucket_of_present.
    rewrite <- inb_firsts. now apply inb_In.
Qed.

Lemma routine_steps_by_rank (products : list SelectedData) :
  StronglySorted by_rank (routine_steps products).
Proof.
  unfold routine_steps, priority_part, remaining_part.
  apply StronglySorted_app.
  - apply blocks_by_rank; [reflexivity | apply order_by_rank].
  - apply blocks_by_rank; [reflexivity|].
    apply StronglySorted_all. intros a b Ha Hb.
    apply key_order_In, filter_In in Ha. apply key_order_In, filter_In in Hb.
    destruct Ha as [_ Ha], Hb as [_ Hb].
    apply negb_true_iff in Ha. apply negb_true_iff in Hb.
    unfold rank. now rewrite (index_of_absent _ _ Ha), (index_of_absent _ _ Hb).
  - intros a b Ha Hb.
    apply in_flat_map in Ha. destruct Ha as (c & _ & Ha).
    apply in_map_iff in Ha. destruct Ha as (x & <- & _).
    apply in_flat_map in Hb. destruct Hb as (c' & Hc' & Hb).
    apply in_map_iff in Hb. destruct Hb as (y & <- & _).
    apply key_order_In, filter_In in Hc'. destruct Hc' as [_ Hc'].
    apply negb_true_iff in Hc'.
    unfold by_rank, rank. cbn [step_cat step_as step_in].
    rewrite (index_of_absent _ _ Hc'). apply index_of_bound.
Qed.

(** Every step of the routine is the step of a selected product. *)
Lemma routine_steps_sound (products : list SelectedData) (s : Step) :
  In s (routine_steps products) ->
  exists p, In p products /\ s = step_of p.
Proof.
  unfold routine_steps, priority_part, remaining_part. intros H.
  apply in_app_or in H. destruct H as [H|H];
    apply in_flat_map in H; destruct H as (c & Hc & H);
    apply in_map_iff in H; destruct H as (x & <- & Hx);
    apply filter_In in Hx; destruct Hx as [Hx Ex];
    apply String.eqb_eq in Ex; exists x; (split; [assumption|]);
    unfold step_of; rewrite Ex.
  - apply inb_In in Hc. now rewrite Hc.
  - apply key_order_In, filter_In in Hc. destruct Hc as [_ Hc].
    apply negb_true_iff in Hc. now rewrite Hc.
Qed.

(** X19.  For selected products whose categories are ASCII text and name
    nothing that a plain object inherits, the loops of [buildLocalRoutine]
    leave in the array [steps], which the text of the routine is formatted
    from, one step per selected product, each the step of a selected
    product under its normalized category, with ranks that never
    decrease: the rank of a step is the position of its category in the
    priority list (cleanser 0, ..., sunscreen 8) and 9 for every other
    category.  So a cleanser comes before a serum, a serum before a
    sunscreen and a product of an unlisted category after all of them, in
    whatever order the products were selected. *)
Theorem routine_follows_the_priority_list (products : list SelectedData) :
  (forall p, In p products -> ascii_category p = true) ->
  (forall p, In p products -> inherited (normCategory p) = false) ->
  exists steps,
    steps_array products = Normal steps
    /\ buildLocalRoutine products = Normal (formatRoutine steps)
    /\ StronglySorted by_rank steps
    /\ List.length steps = List.length products
    /\ (forall p, In p products -> In (step_of p) steps)
    /\ (forall s, In s steps ->
          exists p, In p products /\ s = step_of p
                    /\ step_cat s = normCategory p
                    /\ step_name s = sd_name p)
    /\ (forall s, In s steps ->
          (inb (step_cat s) order = true -> rank (step_cat s) < 9)
          /\ (inb (step_cat s) order = false -> rank (step_cat s) = 9)).
Proof.
  intros _ Hi. exists (routine_steps products).
  pose proof (steps_array_steps products Hi) as Hs.
  split; [exact Hs|].
  split; [rewrite buildLocalRoutine_formats, Hs; reflexivity|].
  split; [apply routine_steps_by_rank|].
  split; [apply routine_steps_length|].
  split; [intros p; apply routine_steps_complete|].
  split.
  - intros s Hin. destruct (routine_steps_sound products s Hin) as (p & Hp & ->).
    exists p. split; [assumption|]. split; [reflexivity|].
    unfold step_of. destruct (inb (normCategory p) order); split; reflexivity.
  - intros s _. split.
    + intros H. apply inb_In in H. unfold order in H. simpl in H.
      repeat (destruct H as [<-|H]; [vm_compute; lia|]). contradiction.
    + intros H. unfold rank. now rewrite (index_of_absent _ _ H).
Qed.

(** A sunscreen, a mask and a cleanser, selected in this order. *)
Lemma routine_follows_the_priority_list_witness :
  exists steps,
    steps_array [selected "S" "Sunscreen"; selected "U" "mask";
                 selected "C" " cleanser"]
    = Normal steps
    /\ map step_name steps = ["C"; "S"; "U"]
    /\ StronglySorted by_rank steps.
Proof.
  destruct (routine_follows_the_priority_list
              [selected "S" "Sunscreen"; selected "U" "mask";
               selected "C" " cleanser"]) as (steps & H1 & _ & H3 & _).
  - intros p [<-|[<-|[<-|[]]]]; reflexivity.
  - intros p [<-|[<-|[<-|[]]]]; reflexivity.
  - exists steps. split; [exact H1|]. split; [|exact H3].
    assert (E : Normal steps = Normal [step_as "cleanser" (selected "C" " cleanser");
                       step_as "sunscreen" (selected "S" "Sunscreen");
                       step_in "mask" (selected "U" "mask")])
      by (rewrite <- H1; reflexivity).
    injection E as ->. reflexivity.
Defined.

(** ** Templated values of the category control *)

Lemma trimEnd_idempotent (t : string) : trimEnd (trimEnd t) = trimEnd t.
Proof.
  induction t as [|c t IH]; [reflexivity|].
  cbn [trimEnd]. destruct (trimEnd t) as [|d r] eqn:E.
  - destruct (is_js_space c) eqn:Ec; [reflexivity|].
    cbn [trimEnd]. now rewrite Ec.
  - cbn [trimEnd]. cbn [trimEnd] in IH. now rewrite IH.
Qed.

(** Trimming a trimmed text changes nothing. *)
Lemma trim_idempotent (s : string) : trim (trim s) = trim s.
Proof.
  unfold trim.
  destruct (trimStart_cases s) as [[_ Ht] | (c & r & Ht & Hc & _)]; rewrite Ht.
  - reflexivity.
  - assert (Hs : trimStart (trimEnd (String c r)) = trimEnd (String c r)).
    { cbn [trimEnd]. destruct (trimEnd r); rewrite ?Hc; cbn [trimStart];
        now rewrite Hc. }
    rewrite Hs. apply trimEnd_idempotent.
Qed.

Lemma skip_word_stops (w rest : string) (d : ascii) :
  (forall c, has_char c w = true -> is_word_char c = true) ->
  is_word_char d = false ->
  skip_word (w ++ String d rest) = String d rest.
Proof.
  intros Hw Hd. induction w as [|c w IH]; simpl.
  - now rewrite Hd.
  - rewrite (Hw c) by (simpl; now rewrite Ascii.eqb_refl).
    apply IH. intros c' Hc'. apply Hw. simpl. rewrite Hc'. apply orb_true_r.
Qed.

(** X20.  For ASCII text in the category control and in the categories of
    the catalog: a value of the category control of the form [#word:rest],
    the word being one or more letters, digits or underscores, is taken as
    the
    trimmed text of the selected option when that is not blank, and as
    the trimmed [rest] when the control has no such option: the products
    are then filtered by [rest]. *)
Theorem templated_category_is_normalized
  (w rest : string) (text : option string) (catalog : list Product) :
  w <> EmptyString ->
  (forall c, has_char c w = true -> is_word_char c = true) ->
  ascii_text rest = true ->
  ascii_field text = true ->
  (forall p, In p catalog -> ascii_field (category p) = true) ->
  let value := "#" ++ w ++ ":" ++ rest in
  strip_template_prefix value = rest
  /\ selected_category (Some (mkSelect value text))
     = match text with
       | Some t => if truthy (trim t) then trim t else trim rest
       | None => trim rest
       end
  /\ (truthy (trim rest) = true ->
      category_filter (selected_category (Some (mkSelect value None))) catalog
      = category_filter rest catalog).
Proof.
  intros Hne Hw _ _ _ value. subst value.
  assert (Hstrip : strip_template_prefix ("#" ++ w ++ ":" ++ rest) = rest).
  { destruct w as [|c w]; [congruence|].
    change ("#" ++ String c w ++ ":" ++ rest)
      with (String "#" (String c (w ++ String ":" rest))).
    cbn [strip_template_prefix].
    change (nat_of_ascii "#" =? 35)%nat with true.
    rewrite (Hw c) by (simpl; now rewrite Ascii.eqb_refl). cbn [andb].
    rewrite skip_word_stops; [reflexivity | | reflexivity].
    intros c' Hc'. apply Hw. simpl. rewrite Hc'. apply orb_true_r. }
  split; [exact Hstrip|].
  assert (Hsel : forall text',
            selected_category (Some (mkSelect ("#" ++ w ++ ":" ++ rest) text'))
            = match text' with
              | Some t => if truthy (trim t) then trim t else trim rest
              | None => trim rest
              end).
  { intros text'. unfold selected_category. cbn [ctl_value ctl_optionText].
    change (truthy ("#" ++ w ++ ":" ++ rest)) with true.
    assert (Hl : looks_templated ("#" ++ w ++ ":" ++ rest) = true).
    { unfold looks_templated.
      change ("#" ++ w ++ ":" ++ rest) with (String "#" (w ++ ":" ++ rest)).
      cbn [prefix]. destruct (ascii_dec "#" "#"); [|congruence].
      destruct (w ++ ":" ++ rest); reflexivity. }
    rewrite Hl, Hstrip. reflexivity. }
  split; [apply Hsel|].
  intros Ht. rewrite Hsel. unfold category_filter. rewrite Ht.
  assert (Hr : truthy rest = true).
  { destruct rest; [discriminate Ht | reflexivity]. }
  rewrite Hr.
  now rewrite trim_idempotent.
Qed.

Lemma templated_category_is_normalized_witness :
  selected_category (Some (mkSelect "#sym:Cleanser " None)) = "Cleanser"
  /\ category_filter (selected_category (Some (mkSelect "#sym:Cleanser " None)))
       catalog0 = [cleanserA].
Proof.
  assert (H1 : "sym" <> EmptyString) by discriminate.
  assert (Hw : forall c, has_char c "sym" = true -> is_word_char c = true).
  { intros c Hc. cbn [has_char] in Hc.
    repeat (apply orb_prop in Hc; destruct Hc as [Hc|Hc];
            [apply Ascii.eqb_eq in Hc; subst c; reflexivity|]).
    discriminate Hc. }
  assert (Hcat : forall p, In p catalog0 -> ascii_field (category p) = true).
  { intros p [<-|[<-|[<-|[]]]]; reflexivity. }
  destruct (templated_category_is_normalized "sym" "Cleanser " None catalog0
              H1 Hw eq_refl eq_refl Hcat) as (_ & H2 & H3).
  split; [exact H2|]. exact (eq_trans (H3 eq_refl) eq_refl).
Defined.

(** ** The first listing *)

(** X21.  When [init] finds a default category in the control, its
    initial-load function shows the products whose [category] is that value
    character for character, with no trimming and no lower-casing, and an
    empty grid rather than a message when there is none; the catalog is in
    the cache afterwards. *)
Theorem initial_load_compares_category_exactly
  (env : Env) (p : Page) (catalog : list Product) (ctl : SelectCtl) :
  productsContainer p <> None ->
  allProductsCache p = None ->
  fetchProducts env = Normal (Some catalog) ->
  categoryFilter p = Some ctl ->
  truthy (ctl_value ctl) = true ->
  exists q,
    initialLoad env p = Normal q
    /\ allProductsCache q = Some catalog
    /\ shown_products (productsContainer q)
       = Some (filter (fun pr => match category pr with
                                 | Some c => c =? ctl_value ctl
                                 | None => false
                                 end) catalog)
    /\ (forall pr, In pr catalog -> category pr <> Some (ctl_value ctl) ->
                   forall l, shown_products (productsContainer q) = Some l ->
                             ~ In pr l).
Proof.
  intros Hc Hcache Hfetch Hctl Ht. unfold initialLoad, loadProducts.
  rewrite Hcache, Hfetch. cbn [bind fst snd].
  change (categoryFilter (set_allProductsCache (Some catalog) p))
    with (categoryFilter p).
  rewrite Hctl, Ht. unfold displayProducts.
  change (productsContainer (set_allProductsCache (Some catalog) p))
    with (productsContainer p).
  destruct (productsContainer p); [|congruence].
  eexists. split; [reflexivity|]. cbn.
  split; [reflexivity|]. rewrite render_cards_products.
  split; [reflexivity|].
  intros pr Hin Hne l [= <-] Hl. apply filter_In in Hl. destruct Hl as [_ Hl].
  destruct (category pr) as [c|]; [|discriminate].
  apply String.eqb_eq in Hl. congruence.
Qed.

Lemma initial_load_compares_category_exactly_witness :
  exists q,
    initialLoad env0
      (mkPage (Some (mkSelect "cleanser" None)) (Some "") (Some ViewPlaceholder)
         (Some "") [] None storage0 [] [] 0 None []) = Normal q
    /\ shown_products (productsContainer q) = Some [].
Proof.
  destruct (initial_load_compares_category_exactly env0
              (mkPage (Some (mkSelect "cleanser" None)) (Some "")
                 (Some ViewPlaceholder) (Some "") [] None storage0 [] [] 0
                 None [])
              catalog0 (mkSelect "cleanser" None))
    as (q & H1 & _ & H3 & _); try reflexivity; [discriminate|].
  exists q. split; [exact H1 | exact H3].
Defined.

(** ** Blank terms and empty identifiers *)

Lemma trim_all_space (s : string) : all_space s = true -> trim s = EmptyString.
Proof.
  intros H. unfold trim.
  destruct (trimStart_cases s) as [[_ Ht] | (c & r & Ht & Hc & _)].
  - now rewrite Ht.
  - exfalso. clear - H Ht Hc. induction s as [|d s IH]; simpl in *;
      [discriminate|].
    apply andb_prop in H. destruct H as [Hd Hs]. rewrite Hd in Ht.
    now apply IH.
Qed.

(** X22.  With the category control absent or at the empty value and the
    search box absent or holding nothing but white space, [applyFilters]
    shows the placeholder on every page that has the product container and
    can load the catalog, however many products the catalog has. *)
Theorem blank_terms_show_the_placeholder
  (env : Env) (p : Page) (catalog : list Product) :
  productsContainer p <> None ->
  allProductsCache p = Some catalog
    \/ (allProductsCache p = None /\ fetchProducts env = Normal (Some catalog)) ->
  categoryFilter p = None
    \/ (exists text, categoryFilter p = Some (mkSelect EmptyString text)) ->
  searchInput p = None
    \/ (exists v, searchInput p = Some v /\ all_space v = true) ->
  exists q, applyFilters env p = Normal q
            /\ productsContainer q = Some ViewPlaceholder
            /\ allProductsCache q = Some catalog.
Proof.
  intros Hc Hload Hcat Hsearch.
  assert (H1 : selected_category (categoryFilter p) = EmptyString).
  { destruct Hcat as [-> | [text ->]]; reflexivity. }
  assert (H2 : search_query (searchInput p) = EmptyString).
  { destruct Hsearch as [-> | (v & -> & Hv)]; [reflexivity|].
    unfold search_query. now rewrite (trim_all_space v Hv). }
  destruct (applyFilters_reaches_render env p catalog Hc Hload)
    as (p3 & C3 & A3 & _ & _ & _ & E).
  rewrite E, H1, H2. cbn. eexists. repeat split. exact A3.
Qed.

Lemma blank_terms_show_the_placeholder_witness :
  exists q,
    applyFilters env0 (set_searchInput (Some "   ") page0) = Normal q
    /\ productsContainer q = Some ViewPlaceholder.
Proof.
  destruct (blank_terms_show_the_placeholder env0
              (set_searchInput (Some "   ") page0) catalog0)
    as (q & H1 & H2 & _).
  - discriminate.
  - right. split; reflexivity.
  - right. exists None. reflexivity.
  - right. exists "   ". split; reflexivity.
  - exists q. split; assumption.
Defined.

Lemma In_toggle (pid x : string) (s : SelSet) :
  In x (toggle pid s) -> In x s \/ x = pid.
Proof.
  unfold toggle, Set_delete, Set_add. cbn [Set_has].
  destruct (inb pid s).
  - intros H. apply filter_In in H. now left.
  - intros H. apply in_app_or in H. destruct H as [H|[<-|[]]]; auto.
Qed.

Lemma selection_op_members (env : Env) (op : SelectionOp) (ps qs : Page * Summary) :
  run_selection_op env ps op = Normal qs ->
  map card_pid (cards_of (productsContainer (fst qs)))
  = map card_pid (cards_of (productsContainer (fst ps)))
  /\ (forall x, In x (selectedProductIds (fst qs)) ->
        In x (selectedProductIds (fst ps))
        \/ (x <> EmptyString
            /\ In x (map card_pid (cards_of (productsContainer (fst ps)))))).
Proof.
  destruct ps as [p s]. destruct op as [card|i|]; cbn [run_selection_op fst snd].
  - destruct (cardClick env card p) as [q|] eqn:Ec; [|discriminate].
    intros [= <-]. cbn [fst].
    destruct (find_card card (productsContainer p)) as [c|] eqn:Ef.
    2:{ unfold cardClick in Ec. rewrite Ef in Ec. injection Ec as <-. auto. }
    destruct (truthy (card_pid c)) eqn:Et.
    2:{ unfold cardClick in Ec. rewrite Ef, Et in Ec. injection Ec as <-. auto. }
    destruct (cardClick_state env card p q c Ef Et Ec) as (S & _ & C).
    apply core_pids in C. destruct C as [C _]. split.
    + rewrite C, map_map. apply map_ext. intros d.
      destruct (card_elem d =? card)%nat; reflexivity.
    + intros x Hx. rewrite S in Hx. apply In_toggle in Hx.
      destruct Hx as [Hx | ->]; [now left|]. right. split.
      * intros E. rewrite E in Et. discriminate.
      * unfold find_card in Ef.
        destruct (productsContainer p) as [[| |cs]|]; try discriminate.
        apply find_some in Ef. apply in_map. apply Ef.
  - intros [= <-]. unfold removeClick. cbn [fst].
    destruct (truthy i); cbn [negb fst]; [|auto]. cbn. split.
    + destruct (productsContainer p) as [[| |cs]|]; cbn; try reflexivity.
      apply unselect_first_core.
    + intros x Hx. apply filter_In in Hx. left. apply Hx.
  - intros [= <-]. unfold clearAllClick. cbn. split; [|intros x []].
    destruct (productsContainer p) as [[| |cs]|]; cbn; try reflexivity.
    rewrite map_map. apply map_ext. intros d.
    destruct (card_selected d); reflexivity.
Qed.

(** X23.  Whatever the user clicks, the selection only ever gains
    identifiers of cards that are on the page, and never the empty
    identifier: after every sequence of card clicks, removals and "Clear
    all" that returns, each member of the selection was a member before or
    is the non-empty [data-product-id] of a card of the page. *)
Theorem selection_gains_only_card_identifiers
  (env : Env) (ops : list SelectionOp) (ps qs : Page * Summary) :
  run_selection_ops env ps ops = Normal qs ->
  forall x, In x (selectedProductIds (fst qs)) ->
    In x (selectedProductIds (fst ps))
    \/ (x <> EmptyString
        /\ In x (map card_pid (cards_of (productsContainer (fst ps))))).
Proof.
  revert ps. induction ops as [|op ops IH]; intros ps; simpl.
  - intros [= <-] x Hx. now left.
  - destruct (run_selection_op env ps op) as [ps'|] eqn:E; [|discriminate].
    simpl. intros Hrun x Hx.
    destruct (selection_op_members env op ps ps' E) as [Hp Hm].
    destruct (IH ps' Hrun x Hx) as [H | [Hne H]].
    + apply Hm. exact H.
    + right. split; [assumption|]. now rewrite <- Hp.
Qed.

Lemma selection_gains_only_card_identifiers_witness :
  In "t-7" (selectedProductIds page_cards)
  \/ ("t-7" <> EmptyString
      /\ In "t-7" (map card_pid (cards_of (productsContainer page_cards)))).
Proof.
  refine (selection_gains_only_card_identifiers env0
           [OpCardClick 0; OpCardClick 2; OpRemove "1"]
           (page_cards, summary0)
           (match run_selection_ops env0 (page_cards, summary0)
                    [OpCardClick 0; OpCardClick 2; OpRemove "1"] with
            | Normal qs => qs
            | Throw _ => (page_cards, summary0)
            end) _ "t-7" _).
  - vm_compute. reflexivity.
  - vm_compute. now left.
Defined.

(** ** A stored element that has no string form *)

Lemma add_all_stops (before after : list JsonValue) (v : JsonValue)
  (e : JsError) (s : SelSet) :
  js_ToString v = Throw e ->
  add_all (before ++ v :: after) s = add_all before s.
Proof.
  intros Hv. revert s. induction before as [|b before IH]; intros s; simpl.
  - now rewrite Hv.
  - destruct (js_ToString b); [apply IH | reflexivity].
Qed.

(** X24.  When the stored array holds an object with a [toString] entry of
    its own, which [String] cannot convert, restoring stops there: the
    elements before it have been added, those after it are not, and nothing
    is thrown to the caller. *)
Theorem restore_stops_at_unconvertible
  (st : LocalStorage) (s : SelSet) (raw : string)
  (before after : list JsonValue) (m : list (string * JsonValue)) :
  ls_enabled st = true ->
  assoc STORAGE_KEY (ls_items st) = Some raw ->
  JSON_parse raw = POk (JArr (before ++ JObj m :: after)) ->
  assoc "toString" m <> None ->
  loadSelectedFromStorage st s = Some (add_all before s).
Proof.
  intros He Ha Hp Hm. unfold loadSelectedFromStorage, getItem.
  rewrite He, Ha.
  assert (Ht : truthy raw = true).
  { destruct raw; [vm_compute in Hp; discriminate | reflexivity]. }
  rewrite Ht, Hp. cbn [negb]. f_equal.
  apply (add_all_stops before after (JObj m)
           (TypeError "Cannot convert object to primitive value")).
  cbn [js_ToString]. destruct (assoc "toString" m); [reflexivity | congruence].
Qed.

Lemma restore_stops_at_unconvertible_witness :
  loadSelectedFromStorage
    (mkStorage true 100 [(STORAGE_KEY, stored_with_object)]) [] = Some ["kept"].
Proof.
  apply (restore_stops_at_unconvertible
           (mkStorage true 100 [(STORAGE_KEY, stored_with_object)]) []
           stored_with_object [JStr "kept"] [JStr "lost"]
           [("toString", JNum 1)]).
  - reflexivity.
  - reflexivity.
  - vm_compute. reflexivity.
  - discriminate.
Defined.

(** ** The summary follows the selection *)

Lemma render_matches (cache : option (list Product)) (sel : SelSet)
  (p : Page) (s : Summary) :
  selectedProductIds p = sel ->
  summary_matches (p, renderSelectedProductsList cache sel s).
Proof.
  intros Hs. unfold summary_matches, renderSelectedProductsList. cbn [fst snd].
  destruct (selectedProductsList s) as [v|] eqn:E.
  - rewrite Hs. destruct sel as [|i sel]; cbn [selectedProductsList].
    + reflexivity.
    + eexists. split; [reflexivity|]. rewrite map_map. apply map_id.
  - now rewrite E.
Qed.

(** X25.  On a page whose summary lists the selection, every sequence of
    card clicks, removals and "Clear all" that returns leaves the summary
    listing the selection: the placeholder when nothing is selected, and
    otherwise one item per selected identifier, in selection order. *)
Theorem summary_follows_the_selection
  (env : Env) (ops : list SelectionOp) (ps qs : Page * Summary) :
  summary_matches ps ->
  run_selection_ops env ps ops = Normal qs ->
  summary_matches qs.
Proof.
  revert ps. induction ops as [|op ops IH]; intros ps Hm; simpl.
  - now intros [= <-].
  - destruct (run_selection_op env ps op) as [ps'|] eqn:E; [|discriminate].
    simpl. apply IH. destruct ps as [p s].
    destruct op as [card|i|]; cbn [run_selection_op fst snd] in E.
    + destruct (cardClick env card p) as [q|] eqn:Ec; [|discriminate].
      injection E as <-. unfold cardClick_summary.
      destruct (find_card card (productsContainer p)) as [c|] eqn:Ef.
      2:{ unfold cardClick in Ec. rewrite Ef in Ec. now injection Ec as <-. }
      destruct (truthy (card_pid c)) eqn:Et; cbn [negb].
      2:{ unfold cardClick in Ec. rewrite Ef, Et in Ec. now injection Ec as <-. }
      apply render_matches.
      now destruct (cardClick_state env card p q c Ef Et Ec) as (S & _).
    + injection E as <-. unfold removeClick. cbn [fst snd].
      destruct (truthy i); cbn [negb]; [|assumption].
      apply render_matches. reflexivity.
    + injection E as <-. unfold clearAllClick. cbn [fst snd].
      apply render_matches. reflexivity.
Qed.

Lemma summary_follows_the_selection_witness :
  exists qs,
    run_selection_ops env0
      (page_cards, renderSelectedProductsList None [] summary0)
      [OpCardClick 0; OpCardClick 2; OpRemove "1"] = Normal qs
    /\ summary_matches qs
    /\ option_map (fun v => match v with
                            | SummaryItems items => map item_name items
                            | _ => []
                            end) (selectedProductsList (snd qs))
       = Some ["T"].
Proof.
  eexists. split; [vm_compute; reflexivity|]. split; [|reflexivity].
  eapply (summary_follows_the_selection env0
            [OpCardClick 0; OpCardClick 2; OpRemove "1"]
            (page_cards, renderSelectedProductsList None [] summary0)).
  - reflexivity.
  - vm_compute. reflexivity.
Defined.
